(** * microFSM event dispatch: a model of [src/event.c]

    The C file implements three layers: [mfsm_Event] (a value carrying an
    [int id]), [mfsm_EventListener] (a fixed array of events with a counter)
    and [mfsm_EventQueue] (a fixed array of listener pointers with a
    counter).  Listeners are shared by pointer between a queue and their
    owner, so the model keeps an explicit memory: addresses are [N] with
    [NULL = 0], and a memory holds one finite map per struct type.

    Every function returns [option]: [None] stands for behaviour that C
    leaves undefined (dereferencing a non-null pointer that names no object,
    indexing an array outside its bounds).  The [int] counters are [Z]; each
    [++] in the source is guarded by a comparison against a capacity and
    each [--] by a comparison against 1, so no increment leaves the range of
    [int] and no wrap-around has to be written out.

    The struct types and the capacities [MAX_EVENTS] and
    [MAX_EVENT_LISTENERS] are declared in the header [event.h].  The
    development is parametric in the two capacities. *)

From stdpp Require Import gmap list.

Open Scope Z_scope.

(** ** Data model *)

Abbreviation NULL := 0%N (only parsing).

(** Modelled from the spec: [mfsm_Event] is declared in [event.h]; the
    spec gives it one integer field, and [id] is the only field [event.c]
    accesses. *)
Record mfsm_Event := { id : Z }.

(** Modelled from the spec: [mfsm_EventListener] is declared in
    [event.h]; the spec gives it a fixed-size array of events of capacity
    [MAX_EVENTS] and an integer count, which [event.c] accesses as
    [events] and [numEvents]. *)
Record mfsm_EventListener := {
  events : list mfsm_Event;
  numEvents : Z
}.

(** Modelled from the spec: [mfsm_EventQueue] is declared in [event.h];
    the spec gives it a fixed-size array of listener references of capacity
    [MAX_EVENT_LISTENERS], a null reference marking a free slot, and an
    integer count, which [event.c] accesses as [listeners] and
    [numListeners]. *)
Record mfsm_EventQueue := {
  listeners : list N;
  numListeners : Z
}.

(** The objects a program has allocated, by address and by type. *)
Record memory := {
  mem_events : gmap N mfsm_Event;
  mem_listeners : gmap N mfsm_EventListener;
  mem_queues : gmap N mfsm_EventQueue
}.

Definition store_event (p : N) (e : mfsm_Event) (m : memory) : memory :=
  {| mem_events := <[p := e]> (mem_events m);
     mem_listeners := mem_listeners m;
     mem_queues := mem_queues m |}.

Definition store_listener (p : N) (l : mfsm_EventListener) (m : memory) : memory :=
  {| mem_events := mem_events m;
     mem_listeners := <[p := l]> (mem_listeners m);
     mem_queues := mem_queues m |}.

Definition store_queue (p : N) (q : mfsm_EventQueue) (m : memory) : memory :=
  {| mem_events := mem_events m;
     mem_listeners := mem_listeners m;
     mem_queues := <[p := q]> (mem_queues m) |}.

(** [a[i]] as an rvalue and [a[i] = x]; both are undefined outside the
    array. *)
Definition array_get {A} (a : list A) (i : Z) : option A :=
  if bool_decide (0 <= i) then a !! Z.to_nat i else None.

Definition array_set {A} (a : list A) (i : Z) (x : A) : option (list A) :=
  if bool_decide (0 <= i < Z.of_nat (length a))
  then Some (<[Z.to_nat i := x]> a)
  else None.

Section Event.

(** The two capacities of [event.h]. *)
Variable MAX_EVENTS : Z.
Variable MAX_EVENT_LISTENERS : Z.

(** ** Event functions *)

(** [void initEvent(mfsm_Event *e, int id)] *)
Definition initEvent (m : memory) (e : N) (id0 : Z) : option memory :=
  _ ← mem_events m !! e;
  Some (store_event e {| id := id0 |} m).

(** ** EventListener functions *)

(** [void initEventListener(mfsm_EventListener *el)]: only the counter is
    written, the array keeps whatever it held. *)
Definition initEventListener (m : memory) (el : N) : option memory :=
  l ← mem_listeners m !! el;
  Some (store_listener el {| events := events l; numEvents := 0 |} m).

(** [int getNextEvent(mfsm_EventListener *el, mfsm_Event *dest)] *)
Definition getNextEvent (m : memory) (el dest : N) : option (memory * Z) :=
  if decide (el = NULL) then Some (m, -1) else
  if decide (dest = NULL) then Some (m, -2) else
  l ← mem_listeners m !! el;
  if bool_decide (numEvents l < 1) then Some (m, -3) else
  ev ← array_get (events l) (numEvents l - 1);
  _ ← mem_events m !! dest;
  let m1 := store_event dest {| id := id ev |} m in
  let n := numEvents l - 1 in
  Some (store_listener el {| events := events l; numEvents := n |} m1, n).

(** [int appendEvent(mfsm_EventListener *el, mfsm_Event e)] *)
Definition appendEvent (m : memory) (el : N) (e : mfsm_Event) : option (memory * Z) :=
  if decide (el = NULL) then Some (m, -1) else
  l ← mem_listeners m !! el;
  if bool_decide (numEvents l >= MAX_EVENTS) then Some (m, -2) else
  evs ← array_set (events l) (numEvents l) {| id := id e |};
  let n := numEvents l + 1 in
  Some (store_listener el {| events := evs; numEvents := n |} m, n).

(** ** EventQueue functions *)

(** The loop of [initEventQueue]: [n] iterations are left, [i] is the loop
    counter. *)
Fixpoint initEventQueue_for (n : nat) (i : Z) (ls : list N) : option (list N) :=
  match n with
  | O => Some ls
  | S n' => ls' ← array_set ls i NULL; initEventQueue_for n' (i + 1) ls'
  end.

(** [void initEventQueue(mfsm_EventQueue *eq)] *)
Definition initEventQueue (m : memory) (qp : N) : option memory :=
  q ← mem_queues m !! qp;
  ls ← initEventQueue_for (Z.to_nat MAX_EVENT_LISTENERS) 0 (listeners q);
  Some (store_queue qp {| listeners := ls; numListeners := 0 |} m).

(** The loop of [addListener]; falling out of it is the [return -2] after
    the loop. *)
Fixpoint addListener_for (n : nat) (i : Z) (q : mfsm_EventQueue) (el : N)
  : option (mfsm_EventQueue * Z) :=
  match n with
  | O => Some (q, -2)
  | S n' =>
      p ← array_get (listeners q) i;
      if decide (p = NULL) then
        ls ← array_set (listeners q) i el;
        Some ({| listeners := ls; numListeners := numListeners q + 1 |}, 0)
      else addListener_for n' (i + 1) q el
  end.

(** [int addListener(mfsm_EventQueue *eq, mfsm_EventListener *el)] *)
Definition addListener (m : memory) (qp el : N) : option (memory * Z) :=
  if decide (qp = NULL) then Some (m, -1) else
  if decide (el = NULL) then Some (m, -3) else
  q ← mem_queues m !! qp;
  if bool_decide (numListeners q >= MAX_EVENT_LISTENERS) then Some (m, -2) else
  '(q', r) ← addListener_for (Z.to_nat MAX_EVENT_LISTENERS) 0 q el;
  Some (store_queue qp q' m, r).

(** The loop of [removeListener]; falling out of it is the final
    [return -4]. *)
Fixpoint removeListener_for (n : nat) (i : Z) (q : mfsm_EventQueue) (el : N)
  : option (mfsm_EventQueue * Z) :=
  match n with
  | O => Some (q, -4)
  | S n' =>
      p ← array_get (listeners q) i;
      if decide (p = el) then
        ls ← array_set (listeners q) i NULL;
        Some ({| listeners := ls; numListeners := numListeners q - 1 |}, 0)
      else removeListener_for n' (i + 1) q el
  end.

(** [int removeListener(mfsm_EventQueue *eq, mfsm_EventListener *el)] *)
Definition removeListener (m : memory) (qp el : N) : option (memory * Z) :=
  if decide (qp = NULL) then Some (m, -1) else
  if decide (el = NULL) then Some (m, -3) else
  q ← mem_queues m !! qp;
  if bool_decide (numListeners q < 1) then Some (m, -2) else
  '(q', r) ← removeListener_for (Z.to_nat MAX_EVENT_LISTENERS) 0 q el;
  Some (store_queue qp q' m, r).

(** The loop of [sendEvent], [for (; i < eq.numListeners; i++)]: the queue
    [q] is the callee's own copy and is only read. *)
Fixpoint sendEvent_for (n : nat) (i : Z) (q : mfsm_EventQueue) (e : mfsm_Event)
    (m : memory) (numErrors : Z) : option (memory * Z) :=
  match n with
  | O => Some (m, numErrors)
  | S n' =>
      p ← array_get (listeners q) i;
      '(m', r) ← appendEvent m p e;
      sendEvent_for n' (i + 1) q e m'
        (if bool_decide (r < 0) then numErrors + 1 else numErrors)
  end.

(** [int sendEvent(mfsm_EventQueue eq, mfsm_Event e)]: both arguments are
    passed by value. *)
Definition sendEvent (m : memory) (q : mfsm_EventQueue) (e : mfsm_Event)
  : option (memory * Z) :=
  '(m', numErrors) ← sendEvent_for (Z.to_nat (numListeners q)) 0 q e m 0;
  Some (m', if decide (numErrors ≠ 0) then -1 else 0).

(** A caller enqueueing the events [es] one after the other into the same
    listener, keeping every return value. *)
Fixpoint appendEvents (m : memory) (el : N) (es : list mfsm_Event)
  : option (memory * list Z) :=
  match es with
  | [] => Some (m, [])
  | e :: es' =>
      '(m1, r) ← appendEvent m el e;
      '(m2, rs) ← appendEvents m1 el es';
      Some (m2, r :: rs)
  end.

(** How many of the return values [rs] report success (a new count, not a
    negative code). *)
Definition successes (rs : list Z) : Z :=
  Z.of_nat (length (filter (λ r, 0 <= r) rs)).

(** The memories a program gets to by initializing the queue object at
    [qp] and then calling [addListener] and [removeListener] on it, with
    whatever listener arguments and whatever outcome. *)
Inductive reachable (qp : N) : memory → Prop :=
  | reach_init m q m0 :
      mem_queues m !! qp = Some q →
      Z.of_nat (length (listeners q)) = MAX_EVENT_LISTENERS →
      initEventQueue m qp = Some m0 →
      reachable qp m0
  | reach_add m el m' r :
      reachable qp m → addListener m qp el = Some (m', r) → reachable qp m'
  | reach_remove m el m' r :
      reachable qp m → removeListener m qp el = Some (m', r) → reachable qp m'.

(** ** Well-formed objects *)

(** The events a listener currently buffers: the first [numEvents] cells of
    its array. *)
Definition buffered (l : mfsm_EventListener) : list mfsm_Event :=
  take (Z.to_nat (numEvents l)) (events l).

Definition in_bounds (l : mfsm_EventListener) : Prop :=
  0 <= numEvents l <= Z.of_nat (length (events l)).

(** A listener as the C type declares it: the array has [MAX_EVENTS] cells
    and the counter stays within it. *)
Definition wf_listener (l : mfsm_EventListener) : Prop :=
  Z.of_nat (length (events l)) = MAX_EVENTS ∧ in_bounds l.

Definition wf_listeners (m : memory) : Prop :=
  ∀ p l, mem_listeners m !! p = Some l → wf_listener l.

(** The listener a successful [appendEvent] leaves behind, and the one a
    successful [getNextEvent] leaves behind. *)
Definition listener_push (l : mfsm_EventListener) (e : mfsm_Event) : mfsm_EventListener :=
  {| events := <[Z.to_nat (numEvents l) := e]> (events l);
     numEvents := numEvents l + 1 |}.

Definition listener_pop (l : mfsm_EventListener) : mfsm_EventListener :=
  {| events := events l; numEvents := numEvents l - 1 |}.

(** A slot of a queue is usable when it is empty or names a listener. *)
Definition slot_ok (m : memory) (p : N) : Prop :=
  p = NULL ∨ is_Some (mem_listeners m !! p).

(** The pointers [sendEvent]'s loop reads from a queue: the slots at the
    indices below [numListeners]. *)
Definition visited (q : mfsm_EventQueue) (p : N) : Prop :=
  ∃ j, 0 <= j < numListeners q ∧ array_get (listeners q) j = Some p.

(** The array of a queue has [MAX_EVENT_LISTENERS] slots. *)
Definition queue_sized (q : mfsm_EventQueue) : Prop :=
  Z.of_nat (length (listeners q)) = MAX_EVENT_LISTENERS.

(** Number of non-null slots. *)
Definition occupied (ls : list N) : Z :=
  Z.of_nat (length (filter (λ p, p ≠ NULL) ls)).

Definition queue_inv (q : mfsm_EventQueue) : Prop :=
  queue_sized q ∧ numListeners q = occupied (listeners q).

(** ** Example memories

    Addresses 1 and 2 hold listeners, address 3 a queue object and address
    9 an event object.  [cap] and [slots] are the two capacities as array
    lengths. *)

Definition blank_listener (cap : nat) : mfsm_EventListener :=
  {| events := replicate cap {| id := 0 |}; numEvents := 0 |}.

(** Both listeners initialized and empty, the queue not yet initialized (its
    fields hold arbitrary values). *)
Definition example_memory (cap slots : nat) : memory :=
  {| mem_events := {[ 9%N := {| id := 0 |} ]};
     mem_listeners := {[ 1%N := blank_listener cap; 2%N := blank_listener cap ]};
     mem_queues :=
       {[ 3%N := {| listeners := replicate slots 7%N; numListeners := 5 |} ]} |}.

(** The same memory with the queue at address 3 holding [ls] and [n]. *)
Definition with_queue (ls : list N) (n : Z) (m : memory) : memory :=
  store_queue 3%N {| listeners := ls; numListeners := n |} m.

(** Capacity 1: the listener at address 1 is full, holding an event with
    id 5; the listener at address 2 is empty. *)
Definition full_and_empty : memory :=
  store_listener 1%N {| events := [{| id := 5 |}]; numEvents := 1 |}
    (example_memory 1 2).

(** The example memory after events with the given ids were pushed, in
    order, into the listener at address 1. *)
Definition pushed (cap : nat) (ids : list Z) : memory :=
  store_listener 1%N
    (foldl (λ l i, listener_push l {| id := i |}) (blank_listener cap) ids)
    (example_memory cap 2).


(** A registry without holes: the slots below [numListeners] are all
    taken. *)
Definition packed (q : mfsm_EventQueue) : Prop :=
  ∀ j p, 0 <= j < numListeners q → array_get (listeners q) j = Some p →
         p ≠ NULL.

(** The memories a program gets to by initializing the queue object at
    [qp] and then only registering listeners, never removing one. *)
Inductive grown (qp : N) : memory → Prop :=
  | grown_init m q m0 :
      mem_queues m !! qp = Some q →
      Z.of_nat (length (listeners q)) = MAX_EVENT_LISTENERS →
      initEventQueue m qp = Some m0 →
      grown qp m0
  | grown_add m el m' r :
      grown qp m → addListener m qp el = Some (m', r) → grown qp m'.

(** [m'] differs from [m] at most in the queue object at [qp]. *)
Definition same_but_queue (qp : N) (m m' : memory) : Prop :=
  mem_listeners m' = mem_listeners m ∧ mem_events m' = mem_events m ∧
  ∀ qp', qp' ≠ qp → mem_queues m' !! qp' = mem_queues m !! qp'.

(** [p] names a well-formed listener that can take one more event. *)
Definition has_room (m : memory) (p : N) : Prop :=
  p ≠ NULL ∧ ∃ l, mem_listeners m !! p = Some l ∧
                  wf_listener l ∧ numEvents l < MAX_EVENTS.

(** No pointer is read twice by the loop of [sendEvent]. *)
Definition distinct_visited (q : mfsm_EventQueue) : Prop :=
  ∀ j1 j2 p, 0 <= j1 < j2 → j2 < numListeners q →
             array_get (listeners q) j1 = Some p →
             array_get (listeners q) j2 ≠ Some p.

(** ** Arrays *)

Lemma event_eta (e : mfsm_Event) : {| id := id e |} = e.
Proof. by destruct e. Qed.

Lemma array_get_Some {A} (a : list A) (i : Z) (x : A) :
  array_get a i = Some x ↔ 0 <= i ∧ a !! Z.to_nat i = Some x.
Proof.
  unfold array_get. destruct (bool_decide_reflect (0 <= i)); [tauto |].
  split; [discriminate | tauto].
Qed.

Lemma array_get_in {A} (a : list A) (i : Z) :
  0 <= i < Z.of_nat (length a) → is_Some (array_get a i).
Proof.
  intros Hi. unfold array_get. rewrite bool_decide_true by lia.
  apply lookup_lt_is_Some. lia.
Qed.

Lemma array_set_Some {A} (a a' : list A) (i : Z) (x : A) :
  array_set a i x = Some a' ↔
  0 <= i < Z.of_nat (length a) ∧ a' = <[Z.to_nat i := x]> a.
Proof.
  unfold array_set.
  destruct (bool_decide_reflect (0 <= i < Z.of_nat (length a))).
  - split; [intros [= <-]; done | intros [_ ->]; done].
  - split; [discriminate | tauto].
Qed.

Lemma array_set_in {A} (a : list A) (i : Z) (x : A) :
  0 <= i < Z.of_nat (length a) →
  array_set a i x = Some (<[Z.to_nat i := x]> a).
Proof. intros Hi. unfold array_set. by rewrite bool_decide_true. Qed.

(** ** The listener as a stack *)


(** Writing cell [numEvents] and bumping the counter pushes onto the
    buffered events. *)
Lemma buffered_push (evs : list mfsm_Event) (n : Z) (e : mfsm_Event) :
  0 <= n < Z.of_nat (length evs) →
  buffered {| events := <[Z.to_nat n := e]> evs; numEvents := n + 1 |} =
  buffered {| events := evs; numEvents := n |} ++ [e].
Proof.
  intros Hn. unfold buffered; simpl.
  replace (Z.to_nat (n + 1)) with (S (Z.to_nat n)) by lia.
  assert (Hlt : (Z.to_nat n < length evs)%nat) by lia.
  destruct (lookup_lt_is_Some_2 evs _ Hlt) as [x Hx].
  rewrite (take_S_r _ _ e) by (rewrite list_lookup_insert_eq; [done | lia]).
  by rewrite take_insert_ge by lia.
Qed.

(** Dropping the counter by one pops the last buffered event, which is the
    cell the dequeue reads. *)
Lemma buffered_pop (evs b : list mfsm_Event) (n : Z) (ev : mfsm_Event) :
  0 <= n <= Z.of_nat (length evs) →
  buffered {| events := evs; numEvents := n |} = b ++ [ev] →
  1 <= n ∧ array_get evs (n - 1) = Some ev ∧
  buffered {| events := evs; numEvents := n - 1 |} = b.
Proof.
  unfold buffered; simpl. intros Hn Hb.
  assert (Hlen : length (take (Z.to_nat n) evs) = S (length b))
    by (rewrite Hb, length_app; simpl; lia).
  rewrite length_take in Hlen.
  assert (Hn' : Z.to_nat n = S (length b)) by lia.
  split; [lia |].
  replace (Z.to_nat (n - 1)) with (length b) by lia.
  split.
  - apply array_get_Some. split; [lia |].
    replace (Z.to_nat (n - 1)) with (length b) by lia.
    rewrite <- (lookup_take_lt evs (Z.to_nat n)) by lia.
    rewrite Hb. by rewrite lookup_app_r, Nat.sub_diag.
  - replace (length b) with (min (length b) (Z.to_nat n)) at 1 by lia.
    rewrite <- take_take, Hb. apply take_app_length.
Qed.

Lemma listener_push_bounds (l : mfsm_EventListener) (e : mfsm_Event) :
  0 <= numEvents l < Z.of_nat (length (events l)) →
  in_bounds (listener_push l e) ∧
  buffered (listener_push l e) = buffered l ++ [e].
Proof.
  intros Hn. split.
  - unfold in_bounds, listener_push; simpl. rewrite length_insert. lia.
  - destruct l as [evs n]. apply buffered_push. done.
Qed.

Lemma listener_push_wf (l : mfsm_EventListener) (e : mfsm_Event) :
  wf_listener l → numEvents l < MAX_EVENTS → wf_listener (listener_push l e).
Proof.
  intros [Hlen Hb] Hn. unfold wf_listener, in_bounds in *.
  unfold listener_push; simpl. rewrite length_insert. lia.
Qed.

Lemma listener_pop_bounds (l : mfsm_EventListener) (b : list mfsm_Event) (ev : mfsm_Event) :
  in_bounds l → buffered l = b ++ [ev] →
  1 <= numEvents l ∧ array_get (events l) (numEvents l - 1) = Some ev ∧
  in_bounds (listener_pop l) ∧ buffered (listener_pop l) = b.
Proof.
  intros Hb Hbuf. destruct l as [evs n].
  destruct (buffered_pop evs b n ev Hb Hbuf) as (H1 & Hget & Hrest).
  repeat split; try done; unfold in_bounds in *; simpl in *; lia.
Qed.

(** ** [appendEvent] *)

Lemma appendEvent_null (m : memory) (e : mfsm_Event) :
  appendEvent m NULL e = Some (m, -1).
Proof. reflexivity. Qed.

Lemma appendEvent_full (m : memory) (el : N) (e : mfsm_Event) (l : mfsm_EventListener) :
  el ≠ NULL → mem_listeners m !! el = Some l → MAX_EVENTS <= numEvents l →
  appendEvent m el e = Some (m, -2).
Proof.
  intros Hel Hl Hfull. unfold appendEvent.
  rewrite decide_False by done. rewrite Hl; simpl.
  by rewrite bool_decide_true by lia.
Qed.

Lemma appendEvent_room (m : memory) (el : N) (e : mfsm_Event) (l : mfsm_EventListener) :
  el ≠ NULL → mem_listeners m !! el = Some l →
  0 <= numEvents l < Z.of_nat (length (events l)) → numEvents l < MAX_EVENTS →
  appendEvent m el e = Some (store_listener el (listener_push l e) m, numEvents l + 1).
Proof.
  intros Hel Hl Hn Hroom. unfold appendEvent.
  rewrite decide_False by done. rewrite Hl; simpl.
  rewrite bool_decide_false by lia.
  rewrite array_set_in by done; simpl. by rewrite event_eta.
Qed.

(** Every way [appendEvent] can return: an error code with the memory as it
    was, or the push. *)
Lemma appendEvent_inv (m m' : memory) (el : N) (e : mfsm_Event) (r : Z) :
  appendEvent m el e = Some (m', r) →
  (r < 0 ∧ m' = m) ∨
  (∃ l, el ≠ NULL ∧ mem_listeners m !! el = Some l ∧
        0 <= numEvents l < Z.of_nat (length (events l)) ∧
        numEvents l < MAX_EVENTS ∧ r = numEvents l + 1 ∧
        m' = store_listener el (listener_push l e) m).
Proof.
  unfold appendEvent. destruct (decide (el = NULL)) as [-> | Hel].
  { intros [= <- <-]. left. split; [lia | done]. }
  destruct (mem_listeners m !! el) as [l |] eqn:Hl; [simpl | discriminate].
  destruct (bool_decide_reflect (numEvents l >= MAX_EVENTS)) as [Hfull | Hroom].
  { intros [= <- <-]. left. split; [lia | done]. }
  destruct (array_set _ _ _) as [evs |] eqn:Hset; [simpl | discriminate].
  apply array_set_Some in Hset as [Hn ->].
  intros [= <- <-]. right. exists l. rewrite event_eta.
  repeat split; try done; lia.
Qed.

(** ** [getNextEvent] *)

Lemma getNextEvent_pop (m : memory) (el dest : N) (l : mfsm_EventListener)
    (b : list mfsm_Event) (ev : mfsm_Event) :
  el ≠ NULL → dest ≠ NULL → mem_listeners m !! el = Some l →
  is_Some (mem_events m !! dest) →
  in_bounds l → buffered l = b ++ [ev] →
  getNextEvent m el dest =
    Some (store_listener el (listener_pop l) (store_event dest ev m),
          numEvents l - 1).
Proof.
  intros Hel Hdest Hl [d Hd] Hb Hbuf.
  destruct (listener_pop_bounds l b ev Hb Hbuf) as (H1 & Hget & _).
  unfold getNextEvent. rewrite !decide_False by done. rewrite Hl; simpl.
  rewrite bool_decide_false by lia. rewrite Hget; simpl. rewrite Hd; simpl.
  by rewrite event_eta.
Qed.

Lemma appendEvent_success (m m' : memory) (el : N) (e : mfsm_Event) (r : Z) :
  appendEvent m el e = Some (m', r) → 0 <= r →
  ∃ l, el ≠ NULL ∧ mem_listeners m !! el = Some l ∧
       0 <= numEvents l < Z.of_nat (length (events l)) ∧
       r = numEvents l + 1 ∧
       mem_listeners m' !! el = Some (listener_push l e) ∧
       mem_events m' = mem_events m.
Proof.
  intros Happ Hr. apply appendEvent_inv in Happ as [[Hneg _] | (l & Hel & Hl & Hn & _ & -> & ->)].
  { lia. }
  exists l. repeat split; try done; try lia.
  simpl. apply lookup_insert_eq.
Qed.

Lemma getNextEvent_success (m : memory) (el dest : N) (l : mfsm_EventListener)
    (b : list mfsm_Event) (ev : mfsm_Event) :
  el ≠ NULL → dest ≠ NULL → mem_listeners m !! el = Some l →
  is_Some (mem_events m !! dest) →
  in_bounds l → buffered l = b ++ [ev] →
  ∃ m', getNextEvent m el dest = Some (m', numEvents l - 1) ∧
        mem_events m' !! dest = Some ev ∧
        mem_listeners m' !! el = Some (listener_pop l) ∧
        in_bounds (listener_pop l) ∧ buffered (listener_pop l) = b.
Proof.
  intros Hel Hdest Hl Hd Hb Hbuf.
  destruct (listener_pop_bounds l b ev Hb Hbuf) as (_ & _ & Hb' & Hbuf').
  eexists. split; [by eapply getNextEvent_pop |].
  simpl. by rewrite !lookup_insert_eq.
Qed.

(** C6: [getNextEvent] tests its preconditions in a fixed order.  A null
    listener gives -1 whatever the destination is; with a listener, a null
    destination gives -2 before the listener is even read; with both, a
    count below 1 gives -3.  Each of the three returns the memory it was
    given, so the empty error leaves count and buffer as they were. *)
Theorem getNextEvent_error_priority (m : memory) (el dest : N) :
  (el = NULL → getNextEvent m el dest = Some (m, -1)) ∧
  (el ≠ NULL → dest = NULL → getNextEvent m el dest = Some (m, -2)) ∧
  (el ≠ NULL → dest ≠ NULL →
   ∀ l, mem_listeners m !! el = Some l → numEvents l < 1 →
        getNextEvent m el dest = Some (m, -3)).
Proof.
  unfold getNextEvent. repeat split.
  - intros ->. done.
  - intros Hel ->. by rewrite decide_False by done.
  - intros Hel Hdest l Hl Hn. rewrite !decide_False by done.
    rewrite Hl; simpl. by rewrite bool_decide_true by done.
Qed.

(** C2: dequeue order is last-in-first-out.  Once events with ids 1, 2, 3
    have been enqueued with success, in that order, three calls of
    [getNextEvent] succeed; they copy ids 3, 2, 1 to the destination, each
    lowers the count by one and returns the new count. *)
Theorem getNextEvent_lifo (m m1 m2 m3 : memory) (el dest : N) (r1 r2 r3 : Z) :
  appendEvent m el {| id := 1 |} = Some (m1, r1) → 0 <= r1 →
  appendEvent m1 el {| id := 2 |} = Some (m2, r2) → 0 <= r2 →
  appendEvent m2 el {| id := 3 |} = Some (m3, r3) → 0 <= r3 →
  dest ≠ NULL → is_Some (mem_events m !! dest) →
  numEvents <$> mem_listeners m3 !! el = Some r3 ∧
  ∃ m4 m5 m6,
    getNextEvent m3 el dest = Some (m4, r3 - 1) ∧
    mem_events m4 !! dest = Some {| id := 3 |} ∧
    numEvents <$> mem_listeners m4 !! el = Some (r3 - 1) ∧
    getNextEvent m4 el dest = Some (m5, r3 - 2) ∧
    mem_events m5 !! dest = Some {| id := 2 |} ∧
    numEvents <$> mem_listeners m5 !! el = Some (r3 - 2) ∧
    getNextEvent m5 el dest = Some (m6, r3 - 3) ∧
    mem_events m6 !! dest = Some {| id := 1 |} ∧
    numEvents <$> mem_listeners m6 !! el = Some (r3 - 3).
Proof.
  intros H1 Hr1 H2 Hr2 H3 Hr3 Hdest Hd.
  destruct (appendEvent_success _ _ _ _ _ H1 Hr1)
    as (l0 & Hel & Hl0 & Hn0 & -> & Hl1 & He1).
  destruct (appendEvent_success _ _ _ _ _ H2 Hr2)
    as (l1' & _ & Hl1' & Hn1 & -> & Hl2 & He2).
  rewrite Hl1 in Hl1'. injection Hl1' as <-.
  destruct (appendEvent_success _ _ _ _ _ H3 Hr3)
    as (l2' & _ & Hl2' & Hn2 & -> & Hl3 & He3).
  rewrite Hl2 in Hl2'. injection Hl2' as <-.
  destruct (listener_push_bounds l0 {| id := 1 |} Hn0) as [_ Hb1].
  destruct (listener_push_bounds _ {| id := 2 |} Hn1) as [_ Hb2].
  destruct (listener_push_bounds _ {| id := 3 |} Hn2) as [Hin3 Hb3].
  rewrite Hb2, Hb1 in Hb3.
  set (l3 := listener_push (listener_push (listener_push l0 _) _) _) in *.
  assert (Hd3 : is_Some (mem_events m3 !! dest)) by (by rewrite He3, He2, He1).
  destruct (getNextEvent_success m3 el dest l3 _ _ Hel Hdest Hl3 Hd3 Hin3 Hb3)
    as (m4 & Hg4 & Hd4 & Hl4 & Hin4 & Hb4).
  destruct (getNextEvent_success m4 el dest _ _ _ Hel Hdest Hl4
              (mk_is_Some _ _ Hd4) Hin4 Hb4)
    as (m5 & Hg5 & Hd5 & Hl5 & Hin5 & Hb5).
  assert (Hb5' : buffered (listener_pop (listener_pop l3)) = buffered l0 ++ [{| id := 1 |}])
    by done.
  destruct (getNextEvent_success m5 el dest _ _ _ Hel Hdest Hl5
              (mk_is_Some _ _ Hd5) Hin5 Hb5')
    as (m6 & Hg6 & Hd6 & Hl6 & _ & _).
  split; [by rewrite Hl3 |].
  exists m4, m5, m6.
  rewrite Hl4, Hl5, Hl6. simpl in *.
  replace (numEvents l0 + 1 + 1 + 1 - 1 - 1) with (numEvents l0 + 1 + 1 + 1 - 2) in * by lia.
  replace (numEvents l0 + 1 + 1 + 1 - 2 - 1) with (numEvents l0 + 1 + 1 + 1 - 3) in * by lia.
  done.
Qed.

(** ** Sequences of enqueues *)

Lemma successes_cons (r : Z) (rs : list Z) :
  successes (r :: rs) = (if bool_decide (0 <= r) then 1 else 0) + successes rs.
Proof.
  unfold successes. rewrite filter_cons.
  destruct (bool_decide_reflect (0 <= r)).
  - rewrite decide_True by done. simpl length. lia.
  - rewrite decide_False by done. lia.
Qed.

(** Any run of enqueues on a well-formed listener returns; the count grows
    by the number of successes and saturates at the capacity. *)
Lemma appendEvents_count (es : list mfsm_Event) (m : memory) (el : N)
    (l : mfsm_EventListener) :
  el ≠ NULL → mem_listeners m !! el = Some l → wf_listener l →
  ∃ m' rs l',
    appendEvents m el es = Some (m', rs) ∧
    mem_listeners m' !! el = Some l' ∧ wf_listener l' ∧
    numEvents l' = numEvents l + successes rs ∧
    numEvents l' = Z.min (numEvents l + Z.of_nat (length es)) MAX_EVENTS.
Proof.
  intros Hel. revert m l.
  induction es as [| e es IH]; intros m l Hl Hwf.
  { exists m, [], l. pose proof Hwf as [Hlen Hb]. unfold in_bounds in Hb.
    split_and!; try done; unfold successes; simpl; lia. }
  pose proof Hwf as [Hlen Hb]. unfold in_bounds in Hb.
  destruct (decide (numEvents l < MAX_EVENTS)) as [Hroom | Hfull].
  - assert (Hn : 0 <= numEvents l < Z.of_nat (length (events l))) by lia.
    pose proof (appendEvent_room m el e l Hel Hl Hn Hroom) as Happ.
    destruct (IH (store_listener el (listener_push l e) m) (listener_push l e))
      as (m' & rs & l' & Hrun & Hl' & Hwf' & Hcnt & Hmin).
    { simpl. apply lookup_insert_eq. }
    { by apply listener_push_wf. }
    exists m', (numEvents l + 1 :: rs), l'. simpl appendEvents.
    rewrite Happ; simpl. rewrite Hrun; simpl.
    rewrite successes_cons, bool_decide_true by lia.
    simpl in Hcnt, Hmin. simpl length. split_and!; try done; lia.
  - pose proof (appendEvent_full m el e l Hel Hl ltac:(lia)) as Happ.
    destruct (IH m l Hl Hwf) as (m' & rs & l' & Hrun & Hl' & Hwf' & Hcnt & Hmin).
    exists m', (-2 :: rs), l'. simpl appendEvents.
    rewrite Happ; simpl. rewrite Hrun; simpl.
    rewrite successes_cons, bool_decide_false by lia.
    simpl length. split_and!; try done; lia.
Qed.

(** C3: enqueueing into an initialized listener.  After
    [initEventListener], any sequence of [appendEvent] calls returns, and
    the count afterwards is the number of calls that succeeded (the first
    [MAX_EVENTS] of them); whenever the count equals [MAX_EVENTS] a
    further [appendEvent] returns -2 and hands back the memory untouched.
    More generally a negative return of [appendEvent], on any memory and
    pointer, comes with the memory untouched. *)
Theorem appendEvent_count_and_full (m : memory) (el : N) (l : mfsm_EventListener) :
  el ≠ NULL → mem_listeners m !! el = Some l →
  Z.of_nat (length (events l)) = MAX_EVENTS →
  (∃ m0, initEventListener m el = Some m0 ∧
     ∀ es, ∃ m' rs l',
       appendEvents m0 el es = Some (m', rs) ∧
       mem_listeners m' !! el = Some l' ∧
       numEvents l' = successes rs ∧
       successes rs = Z.min (Z.of_nat (length es)) MAX_EVENTS ∧
       (numEvents l' = MAX_EVENTS →
        ∀ e, appendEvent m' el e = Some (m', -2))) ∧
  (∀ m1 m2 p e r, appendEvent m1 p e = Some (m2, r) → r < 0 → m2 = m1).
Proof.
  intros Hel Hl Hlen. split.
  - unfold initEventListener. rewrite Hl; simpl. eexists. split; [done |].
    intros es.
    destruct (appendEvents_count es
                (store_listener el {| events := events l; numEvents := 0 |} m)
                el {| events := events l; numEvents := 0 |} Hel)
      as (m' & rs & l' & Hrun & Hl' & Hwf' & Hcnt & Hmin).
    { simpl. apply lookup_insert_eq. }
    { unfold wf_listener, in_bounds; simpl. lia. }
    simpl in Hcnt, Hmin.
    exists m', rs, l'. split_and!; try done; try lia.
    intros Hfull e. apply (appendEvent_full m' el e l'); [done | done | lia].
  - intros m1 m2 p e r Happ Hr.
    apply appendEvent_inv in Happ as [[_ ->] | (l1 & _ & _ & Hn & _ & -> & _)];
      [done | lia].
Qed.

(** ** Occupied slots *)

Lemma occupied_cons (p : N) (ls : list N) :
  occupied (p :: ls) = (if decide (p ≠ NULL) then 1 else 0) + occupied ls.
Proof.
  unfold occupied. rewrite filter_cons.
  destruct (decide (p ≠ NULL)); simpl length; lia.
Qed.

Lemma occupied_bounds (ls : list N) : 0 <= occupied ls <= Z.of_nat (length ls).
Proof.
  unfold occupied. pose proof (length_filter (λ p : N, p ≠ NULL) ls). lia.
Qed.

Lemma occupied_replicate_null (n : nat) : occupied (replicate n NULL) = 0.
Proof.
  induction n as [| n IH]; [done |].
  simpl replicate. rewrite occupied_cons, IH. by rewrite decide_False by tauto.
Qed.

Lemma occupied_insert (ls : list N) (j : nat) (old new : N) :
  ls !! j = Some old →
  occupied (<[j := new]> ls) =
  occupied ls - (if decide (old ≠ NULL) then 1 else 0)
              + (if decide (new ≠ NULL) then 1 else 0).
Proof.
  revert j. induction ls as [| p ls IH]; intros j Hj; [done |].
  destruct j as [| j]; simpl in *.
  - injection Hj as ->. rewrite !occupied_cons. lia.
  - rewrite !occupied_cons, (IH j Hj). lia.
Qed.

Lemma occupied_no_null (ls : list N) :
  (∀ j, ls !! j ≠ Some NULL) → occupied ls = Z.of_nat (length ls).
Proof.
  induction ls as [| p ls IH]; intros Hnn; [done |].
  rewrite occupied_cons, IH by (intros j; apply (Hnn (S j))).
  rewrite decide_True; [simpl length; lia |].
  intros ->. by apply (Hnn 0%nat).
Qed.

(** ** The loops over the slots *)

Lemma initEventQueue_for_spec (n k : nat) (ls : list N) :
  (k + n ≤ length ls)%nat →
  initEventQueue_for n (Z.of_nat k) ls =
    Some (take k ls ++ replicate n NULL ++ drop (k + n) ls).
Proof.
  revert k ls. induction n as [| n IH]; intros k ls Hlen; simpl.
  - by rewrite Nat.add_0_r, take_drop.
  - rewrite array_set_in by lia; simpl. rewrite Nat2Z.id.
    replace (Z.of_nat k + 1) with (Z.of_nat (S k)) by lia.
    rewrite IH by (rewrite length_insert; lia).
    rewrite (take_S_r _ _ NULL) by (apply list_lookup_insert_eq; lia).
    rewrite take_insert_ge by lia.
    rewrite drop_insert_lt by lia.
    rewrite <- app_assoc. simpl.
    by replace (k + S n)%nat with (S (k + n)) by lia.
Qed.

Lemma initEventQueue_ok (m : memory) (qp : N) (q : mfsm_EventQueue) :
  mem_queues m !! qp = Some q → queue_sized q →
  initEventQueue m qp =
    Some (store_queue qp
            {| listeners := replicate (length (listeners q)) NULL;
               numListeners := 0 |} m).
Proof.
  intros Hq Hsz. unfold initEventQueue, queue_sized in *. rewrite Hq; simpl.
  rewrite <- Hsz, Nat2Z.id.
  rewrite (initEventQueue_for_spec _ 0 (listeners q)) by (simpl; lia).
  simpl. by rewrite drop_all, app_nil_r.
Qed.

Lemma array_get_nat {A} (a : list A) (k : nat) :
  array_get a (Z.of_nat k) = a !! k.
Proof. unfold array_get. by rewrite bool_decide_true, Nat2Z.id by lia. Qed.

(** Opening move shared by the two scanning loops: read slot [k], which
    exists, and name its content [p]. *)
Ltac read_slot k p Hp :=
  rewrite array_get_nat;
  match goal with
  | |- context [?ls !! k] =>
      let Hlt := fresh in
      assert (Hlt : (k < length ls)%nat) by lia;
      destruct (lookup_lt_is_Some_2 ls k Hlt) as [p Hp];
      rewrite Hp; simpl; clear Hlt
  end.

(** [addListener]'s loop stops at the lowest-indexed null slot, stores the
    listener there and bumps the counter; without a null slot it falls
    through to -2 and the queue is as before. *)
Lemma addListener_for_spec (n k : nat) (q : mfsm_EventQueue) (el : N) :
  (k + n ≤ length (listeners q))%nat →
  (∃ j, (k ≤ j < k + n)%nat ∧ listeners q !! j = Some NULL ∧
        (∀ j', (k ≤ j' < j)%nat → listeners q !! j' ≠ Some NULL) ∧
        addListener_for n (Z.of_nat k) q el =
          Some ({| listeners := <[j := el]> (listeners q);
                   numListeners := numListeners q + 1 |}, 0))
  ∨ ((∀ j, (k ≤ j < k + n)%nat → listeners q !! j ≠ Some NULL) ∧
     addListener_for n (Z.of_nat k) q el = Some (q, -2)).
Proof.
  revert k. induction n as [| n IH]; intros k Hlen.
  { right. split; [intros j Hj; lia | done]. }
  simpl addListener_for. read_slot k p Hp.
  destruct (decide (p = NULL)) as [-> | Hnn].
  - left. exists k. split_and!; try done; try lia.
    rewrite array_set_in by lia. simpl. by rewrite Nat2Z.id.
  - replace (Z.of_nat k + 1) with (Z.of_nat (S k)) by lia.
    destruct (IH (S k)) as [(j & Hj & Hnull & Hfirst & Hrun) | [Hnone Hrun]];
      [lia | left | right].
    + exists j. split_and!; try done; try lia.
      intros j' Hj'. destruct (decide (j' = k)) as [-> | Hne].
      * rewrite Hp. congruence.
      * apply Hfirst. lia.
    + split; [| done].
      intros j Hj. destruct (decide (j = k)) as [-> | Hne].
      * rewrite Hp. congruence.
      * apply Hnone. lia.
Qed.

(** [removeListener]'s loop stops at the lowest-indexed slot holding [el],
    clears it and drops the counter; without such a slot it falls through
    to -4 and the queue is as before. *)
Lemma removeListener_for_spec (n k : nat) (q : mfsm_EventQueue) (el : N) :
  (k + n ≤ length (listeners q))%nat →
  (∃ j, (k ≤ j < k + n)%nat ∧ listeners q !! j = Some el ∧
        (∀ j', (k ≤ j' < j)%nat → listeners q !! j' ≠ Some el) ∧
        removeListener_for n (Z.of_nat k) q el =
          Some ({| listeners := <[j := NULL]> (listeners q);
                   numListeners := numListeners q - 1 |}, 0))
  ∨ ((∀ j, (k ≤ j < k + n)%nat → listeners q !! j ≠ Some el) ∧
     removeListener_for n (Z.of_nat k) q el = Some (q, -4)).
Proof.
  revert k. induction n as [| n IH]; intros k Hlen.
  { right. split; [intros j Hj; lia | done]. }
  simpl removeListener_for. read_slot k p Hp.
  destruct (decide (p = el)) as [-> | Hnn].
  - left. exists k. split_and!; try done; try lia.
    rewrite array_set_in by lia. simpl. by rewrite Nat2Z.id.
  - replace (Z.of_nat k + 1) with (Z.of_nat (S k)) by lia.
    destruct (IH (S k)) as [(j & Hj & Hnull & Hfirst & Hrun) | [Hnone Hrun]];
      [lia | left | right].
    + exists j. split_and!; try done; try lia.
      intros j' Hj'. destruct (decide (j' = k)) as [-> | Hne].
      * rewrite Hp. congruence.
      * apply Hfirst. lia.
    + split; [| done].
      intros j Hj. destruct (decide (j = k)) as [-> | Hne].
      * rewrite Hp. congruence.
      * apply Hnone. lia.
Qed.

(** ** [addListener] and [removeListener] *)

Lemma store_queue_same (m : memory) (qp : N) (q : mfsm_EventQueue) :
  mem_queues m !! qp = Some q → store_queue qp q m = m.
Proof.
  intros Hq. destruct m as [me ml mq]. unfold store_queue; simpl in *.
  by rewrite insert_id.
Qed.

Lemma addListener_full (m : memory) (qp el : N) (q : mfsm_EventQueue) :
  qp ≠ NULL → el ≠ NULL → mem_queues m !! qp = Some q →
  MAX_EVENT_LISTENERS <= numListeners q →
  addListener m qp el = Some (m, -2).
Proof.
  intros Hqp Hel Hq Hfull. unfold addListener.
  rewrite !decide_False by done. rewrite Hq; simpl.
  by rewrite bool_decide_true by lia.
Qed.

Lemma addListener_ok (m : memory) (qp el : N) (q : mfsm_EventQueue) :
  qp ≠ NULL → el ≠ NULL → mem_queues m !! qp = Some q →
  queue_inv q → numListeners q < MAX_EVENT_LISTENERS →
  ∃ j, listeners q !! j = Some NULL ∧
       (∀ j', (j' < j)%nat → listeners q !! j' ≠ Some NULL) ∧
       addListener m qp el =
         Some (store_queue qp {| listeners := <[j := el]> (listeners q);
                                 numListeners := numListeners q + 1 |} m, 0).
Proof.
  intros Hqp Hel Hq [Hsz Hcnt] Hroom. unfold queue_sized in Hsz.
  unfold addListener. rewrite !decide_False by done. rewrite Hq; simpl.
  rewrite bool_decide_false by lia. rewrite <- Hsz, Nat2Z.id.
  destruct (addListener_for_spec (length (listeners q)) 0 q el)
    as [(j & Hj & Hnull & Hfirst & Hrun) | [Hnone Hrun]]; [simpl; lia | |].
  - exists j. change (Z.of_nat 0) with 0 in Hrun. rewrite Hrun; simpl.
    split_and!; try done. intros j' Hj'. apply Hfirst. lia.
  - exfalso. rewrite (occupied_no_null (listeners q)) in Hcnt; [lia |].
    intros j. destruct (decide (j < length (listeners q))%nat).
    + apply Hnone. lia.
    + rewrite lookup_ge_None_2 by lia. done.
Qed.

Lemma removeListener_empty (m : memory) (qp el : N) (q : mfsm_EventQueue) :
  qp ≠ NULL → el ≠ NULL → mem_queues m !! qp = Some q →
  numListeners q < 1 →
  removeListener m qp el = Some (m, -2).
Proof.
  intros Hqp Hel Hq Hempty. unfold removeListener.
  rewrite !decide_False by done. rewrite Hq; simpl.
  by rewrite bool_decide_true by lia.
Qed.

(** With at least one registration counted, [removeListener] either clears
    the lowest-indexed slot holding [el], or finds none and returns -4 with
    the memory as it was. *)
Lemma removeListener_scan (m : memory) (qp el : N) (q : mfsm_EventQueue) :
  qp ≠ NULL → el ≠ NULL → mem_queues m !! qp = Some q →
  queue_sized q → 1 <= numListeners q →
  (∃ j, listeners q !! j = Some el ∧
        (∀ j', (j' < j)%nat → listeners q !! j' ≠ Some el) ∧
        removeListener m qp el =
          Some (store_queue qp {| listeners := <[j := NULL]> (listeners q);
                                  numListeners := numListeners q - 1 |} m, 0))
  ∨ ((el ∉ listeners q) ∧ removeListener m qp el = Some (m, -4)).
Proof.
  intros Hqp Hel Hq Hsz Hcnt. unfold queue_sized in Hsz.
  unfold removeListener. rewrite !decide_False by done. rewrite Hq; simpl.
  rewrite bool_decide_false by lia. rewrite <- Hsz, Nat2Z.id.
  destruct (removeListener_for_spec (length (listeners q)) 0 q el)
    as [(j & Hj & Hnull & Hfirst & Hrun) | [Hnone Hrun]]; [simpl; lia | |].
  - left. exists j. change (Z.of_nat 0) with 0 in Hrun. rewrite Hrun; simpl.
    split_and!; try done. intros j' Hj'. apply Hfirst. lia.
  - right. change (Z.of_nat 0) with 0 in Hrun. rewrite Hrun; simpl.
    rewrite store_queue_same by done. split; [| done].
    intros [j Hj]%list_elem_of_lookup_1.
    apply (Hnone j); [| done]. apply lookup_lt_Some in Hj. lia.
Qed.

(** C5: the error codes of [removeListener] on a non-null queue and a
    non-null listener.  With [numListeners] 0 the result is -2 (already
    empty) whatever the slots hold, so also when [el] sits in one of them.
    The call always returns, and it returns -4 (not found) exactly when
    [numListeners] is at least 1 and no slot holds [el]; the memory, hence
    [numListeners] and every slot, is then as before. *)
Theorem removeListener_empty_and_not_found (m : memory) (qp el : N)
    (q : mfsm_EventQueue) :
  qp ≠ NULL → el ≠ NULL → mem_queues m !! qp = Some q → queue_sized q →
  (numListeners q = 0 → removeListener m qp el = Some (m, -2)) ∧
  ∃ m' r, removeListener m qp el = Some (m', r) ∧
          (r = -4 ↔ 1 <= numListeners q ∧ (el ∉ listeners q)) ∧
          (r = -4 → m' = m).
Proof.
  intros Hqp Hel Hq Hsz. split.
  { intros Hzero. apply (removeListener_empty m qp el q); [done .. | lia]. }
  destruct (decide (numListeners q < 1)) as [Hempty | Hsome].
  { exists m, (-2). rewrite (removeListener_empty m qp el q) by done.
    split_and!; [done | | done]. split; [discriminate | lia]. }
  destruct (removeListener_scan m qp el q) as [(j & Hj & _ & Hrun) | [Hnotin Hrun]];
    [done .. | lia | |].
  - eexists _, 0. split_and!; [done | | discriminate].
    split; [discriminate |]. intros [_ Hnotin]. exfalso. apply Hnotin.
    by eapply list_elem_of_lookup_2.
  - exists m, (-4). split_and!; [done | | done]. split; [| done].
    intros _. split; [lia | done].
Qed.

(** ** The registry invariant *)

Lemma addListener_preserves (m m' : memory) (qp el : N) (r : Z)
    (q : mfsm_EventQueue) :
  mem_queues m !! qp = Some q → queue_inv q →
  addListener m qp el = Some (m', r) →
  ∃ q', mem_queues m' !! qp = Some q' ∧ queue_inv q'.
Proof.
  intros Hq Hinv Hadd.
  destruct (decide (qp = NULL)) as [Hqp | Hqp].
  { unfold addListener in Hadd. rewrite decide_True in Hadd by done.
    injection Hadd as <- <-. eauto. }
  destruct (decide (el = NULL)) as [Hel | Hel].
  { unfold addListener in Hadd.
    rewrite decide_False, decide_True in Hadd by done.
    injection Hadd as <- <-. eauto. }
  destruct (decide (numListeners q < MAX_EVENT_LISTENERS)) as [Hroom | Hfull].
  - destruct (addListener_ok m qp el q) as (j & Hj & _ & Hrun); [done .. |].
    rewrite Hrun in Hadd. injection Hadd as <- <-.
    eexists. split; [simpl; apply lookup_insert_eq |].
    destruct Hinv as [Hsz Hcnt]. unfold queue_inv, queue_sized in *; simpl.
    rewrite length_insert. split; [done |].
    rewrite (occupied_insert _ _ NULL el Hj).
    rewrite decide_False by tauto. rewrite decide_True by done. lia.
  - rewrite (addListener_full m qp el q) in Hadd by (done || lia).
    injection Hadd as <- <-. eauto.
Qed.

Lemma removeListener_preserves (m m' : memory) (qp el : N) (r : Z)
    (q : mfsm_EventQueue) :
  mem_queues m !! qp = Some q → queue_inv q →
  removeListener m qp el = Some (m', r) →
  ∃ q', mem_queues m' !! qp = Some q' ∧ queue_inv q'.
Proof.
  intros Hq Hinv Hrem.
  destruct (decide (qp = NULL)) as [Hqp | Hqp].
  { unfold removeListener in Hrem. rewrite decide_True in Hrem by done.
    injection Hrem as <- <-. eauto. }
  destruct (decide (el = NULL)) as [Hel | Hel].
  { unfold removeListener in Hrem.
    rewrite decide_False, decide_True in Hrem by done.
    injection Hrem as <- <-. eauto. }
  destruct (decide (numListeners q < 1)) as [Hempty | Hsome].
  { rewrite (removeListener_empty m qp el q) in Hrem by done.
    injection Hrem as <- <-. eauto. }
  pose proof Hinv as [Hsz Hcnt].
  destruct (removeListener_scan m qp el q) as [(j & Hj & _ & Hrun) | [_ Hrun]];
    [done .. | lia | |]; rewrite Hrun in Hrem; injection Hrem as <- <-.
  - eexists. split; [simpl; apply lookup_insert_eq |].
    unfold queue_inv, queue_sized in *; simpl.
    rewrite length_insert. split; [done |].
    rewrite (occupied_insert _ _ el NULL Hj).
    rewrite decide_True by done. rewrite decide_False by tauto. lia.
  - eauto.
Qed.

Lemma reachable_queue_inv (qp : N) (m : memory) :
  reachable qp m → ∃ q, mem_queues m !! qp = Some q ∧ queue_inv q.
Proof.
  induction 1 as [m q m0 Hq Hsz Hinit
                 | m el m' r _ (q & Hq & Hinv) Hadd
                 | m el m' r _ (q & Hq & Hinv) Hrem].
  - rewrite (initEventQueue_ok m qp q Hq Hsz) in Hinit. injection Hinit as <-.
    eexists. split; [simpl; apply lookup_insert_eq |].
    unfold queue_inv, queue_sized; simpl.
    by rewrite length_replicate, occupied_replicate_null.
  - by eapply addListener_preserves.
  - by eapply removeListener_preserves.
Qed.

(** C7: in every memory reached from [initEventQueue] by calls of
    [addListener] and [removeListener], the queue's [numListeners] is the
    number of non-null slots of its array and is at most
    [MAX_EVENT_LISTENERS]; when it has reached [MAX_EVENT_LISTENERS], an
    attempt to register one more listener returns -2 (full) and changes
    nothing. *)
Theorem registry_invariant (qp : N) (m : memory) :
  qp ≠ NULL → reachable qp m →
  ∃ q, mem_queues m !! qp = Some q ∧
       numListeners q = occupied (listeners q) ∧
       numListeners q <= MAX_EVENT_LISTENERS ∧
       (numListeners q = MAX_EVENT_LISTENERS →
        ∀ el, el ≠ NULL → addListener m qp el = Some (m, -2)).
Proof.
  intros Hqp (q & Hq & Hsz & Hcnt)%reachable_queue_inv.
  exists q. unfold queue_sized in Hsz.
  pose proof (occupied_bounds (listeners q)).
  split_and!; [done | done | lia |].
  intros Hfull el Hel. apply (addListener_full m qp el q); [done .. | lia].
Qed.

(** ** Broadcast *)

(** [appendEvent] touches nothing but the listener it is given. *)
Lemma appendEvent_frame (m m' : memory) (el : N) (e : mfsm_Event) (r : Z) :
  appendEvent m el e = Some (m', r) →
  mem_queues m' = mem_queues m ∧ mem_events m' = mem_events m ∧
  dom (mem_listeners m') = dom (mem_listeners m) ∧
  ∀ p, p = NULL ∨ p ≠ el → mem_listeners m' !! p = mem_listeners m !! p.
Proof.
  intros [[_ ->] | (l & Hel & Hl & _ & _ & _ & ->)]%appendEvent_inv; [done |].
  simpl. split_and!; [done | done | |].
  - apply dom_insert_lookup_L. by rewrite Hl.
  - intros p [-> | Hp]; by rewrite lookup_insert_ne.
Qed.

(** On well-formed listeners [appendEvent] returns, and keeps them
    well-formed. *)
Lemma appendEvent_total (m : memory) (p : N) (e : mfsm_Event) :
  wf_listeners m → slot_ok m p →
  ∃ m' r, appendEvent m p e = Some (m', r) ∧ wf_listeners m' ∧
          (p = NULL → r < 0).
Proof.
  intros Hwf [-> | [l Hl]].
  { exists m, (-1). split_and!; [done | done | lia]. }
  destruct (decide (p = NULL)) as [-> | Hp].
  { exists m, (-1). split_and!; [done | done | lia]. }
  pose proof (Hwf p l Hl) as Hwfl. pose proof Hwfl as [Hlen Hb].
  unfold in_bounds in Hb.
  destruct (decide (numEvents l < MAX_EVENTS)) as [Hroom | Hfull].
  - eexists _, _. split; [apply (appendEvent_room m p e l); (done || lia) |].
    split; [| done]. intros p' l'. simpl.
    destruct (decide (p = p')) as [<- | Hne].
    + rewrite lookup_insert_eq. intros [= <-]. by apply listener_push_wf.
    + rewrite lookup_insert_ne by done. apply Hwf.
  - exists m, (-2).
    split; [apply (appendEvent_full m p e l); (done || lia) | done].
Qed.

Lemma sendEvent_for_frame (n : nat) (i : Z) (q : mfsm_EventQueue) (e : mfsm_Event)
    (m m' : memory) (errs errs' : Z) :
  sendEvent_for n i q e m errs = Some (m', errs') →
  mem_queues m' = mem_queues m ∧ mem_events m' = mem_events m ∧
  dom (mem_listeners m') = dom (mem_listeners m) ∧
  ∀ p, (p = NULL ∨
        ∀ j, i <= j < i + Z.of_nat n → array_get (listeners q) j ≠ Some p) →
       mem_listeners m' !! p = mem_listeners m !! p.
Proof.
  revert i m errs. induction n as [| n IH]; intros i m errs; simpl.
  { by intros [= <- <-]. }
  destruct (array_get (listeners q) i) as [p0 |] eqn:Hget; [simpl | discriminate].
  destruct (appendEvent m p0 e) as [[m1 r] |] eqn:Happ; [simpl | discriminate].
  intros Hrec.
  destruct (IH _ _ _ Hrec) as (Hq & He & Hd & Hframe).
  destruct (appendEvent_frame _ _ _ _ _ Happ) as (Hq1 & He1 & Hd1 & Hframe1).
  split_and!; [congruence .. |].
  intros p Hp. rewrite Hframe, Hframe1; [done | |].
  - destruct Hp as [-> | Hp]; [by left | right].
    intros ->. apply (Hp i); [lia | done].
  - destruct Hp as [-> | Hp]; [by left | right].
    intros j Hj. apply Hp. lia.
Qed.

Lemma sendEvent_for_total (n : nat) (i : Z) (q : mfsm_EventQueue) (e : mfsm_Event)
    (m : memory) (errs : Z) :
  0 <= i → i + Z.of_nat n <= Z.of_nat (length (listeners q)) →
  wf_listeners m →
  (∀ j p, i <= j < i + Z.of_nat n → array_get (listeners q) j = Some p →
          slot_ok m p) →
  ∃ m' errs', sendEvent_for n i q e m errs = Some (m', errs') ∧
              errs <= errs' ∧
              ((∃ j, i <= j < i + Z.of_nat n ∧
                     array_get (listeners q) j = Some NULL) → errs < errs').
Proof.
  revert i m errs. induction n as [| n IH]; intros i m errs Hi Hlen Hwf Hok; simpl.
  { exists m, errs. split_and!; [done | lia |]. intros (j & Hj & _). lia. }
  destruct (array_get_in (listeners q) i) as [p0 Hget]; [lia |].
  rewrite Hget; simpl.
  destruct (appendEvent_total m p0 e Hwf) as (m1 & r & Happ & Hwf1 & Hnull).
  { apply (Hok i); [lia | done]. }
  rewrite Happ; simpl.
  destruct (appendEvent_frame _ _ _ _ _ Happ) as (_ & _ & Hd1 & _).
  destruct (IH (i + 1) m1 (if bool_decide (r < 0) then errs + 1 else errs))
    as (m' & errs' & Hrun & Hle & Hlt); [lia | lia | done | |].
  { intros j p Hj Hp. destruct (Hok j p) as [-> | Hsome]; [lia | done | by left |].
    right. apply elem_of_dom. rewrite Hd1. by apply elem_of_dom. }
  exists m', errs'. split; [done |].
  split; [case_bool_decide; lia |].
  intros (j & Hj & Hj0). destruct (decide (j = i)) as [-> | Hne].
  - rewrite Hget in Hj0. injection Hj0 as ->.
    rewrite bool_decide_true in Hle by auto. lia.
  - assert (errs <= if bool_decide (r < 0) then errs + 1 else errs)
      by (case_bool_decide; lia).
    enough (Hlt' : (if bool_decide (r < 0) then errs + 1 else errs) < errs') by lia.
    apply Hlt. exists j. split; [lia | done].
Qed.

Lemma visited_range (q : mfsm_EventQueue) (j : Z) (p : N) :
  0 <= j < 0 + Z.of_nat (Z.to_nat (numListeners q)) →
  array_get (listeners q) j = Some p → visited q p.
Proof. intros Hj Hget. exists j. split; [lia | done]. Qed.

Lemma sendEvent_returns (m : memory) (q : mfsm_EventQueue) (e : mfsm_Event) :
  wf_listeners m →
  numListeners q <= Z.of_nat (length (listeners q)) →
  (∀ p, visited q p → slot_ok m p) →
  ∃ m' r, sendEvent m q e = Some (m', r) ∧
          (visited q NULL → r = -1).
Proof.
  intros Hwf Hlen Hok.
  destruct (sendEvent_for_total (Z.to_nat (numListeners q)) 0 q e m 0)
    as (m' & errs & Hrun & Hle & Hlt); [lia | lia | done | |].
  { intros j p Hj Hget. apply Hok. by eapply visited_range. }
  unfold sendEvent. rewrite Hrun; simpl. eexists _, _. split; [done |].
  intros (j & Hj & Hget). rewrite decide_True; [done |].
  enough (0 < errs) by lia. apply Hlt. exists j. split; [lia | done].
Qed.

(** C8: [sendEvent] works on its own copy of the queue.  Whenever a call
    returns, every queue object in memory, the caller's included, is what
    it was before ([numListeners] and all slots), as is every event object;
    no listener appears or disappears, and a listener whose address the
    loop did not read from the copy is unchanged.  On well-formed arguments
    the call does return. *)
Theorem sendEvent_by_value (m : memory) (q : mfsm_EventQueue) (e : mfsm_Event) :
  (∀ m' r, sendEvent m q e = Some (m', r) →
     mem_queues m' = mem_queues m ∧ mem_events m' = mem_events m ∧
     dom (mem_listeners m') = dom (mem_listeners m) ∧
     ∀ p, ¬ visited q p → mem_listeners m' !! p = mem_listeners m !! p) ∧
  (wf_listeners m →
   numListeners q <= Z.of_nat (length (listeners q)) →
   (∀ p, visited q p → slot_ok m p) →
   ∃ m' r, sendEvent m q e = Some (m', r)).
Proof.
  split.
  - intros m' r. unfold sendEvent.
    destruct (sendEvent_for _ _ _ _ _ _) as [[m1 errs] |] eqn:Hrun;
      [simpl | discriminate].
    intros [= <- <-].
    destruct (sendEvent_for_frame _ _ _ _ _ _ _ _ Hrun) as (Hq & He & Hd & Hframe).
    split_and!; [done .. |].
    intros p Hnv. apply Hframe. right. intros j Hj Hget.
    apply Hnv. by eapply visited_range.
  - intros Hwf Hlen Hok.
    destruct (sendEvent_returns m q e Hwf Hlen Hok) as (m' & r & Hrun & _).
    eauto.
Qed.

(** C9: a null slot among those the loop visits is never written through.
    [appendEvent] on a null pointer returns -1 with the memory it was given;
    [sendEvent] then returns -1, not a fault, and nothing stored at the null
    address has changed. *)
Theorem sendEvent_null_slot (m : memory) (q : mfsm_EventQueue) (e : mfsm_Event) :
  wf_listeners m →
  numListeners q <= Z.of_nat (length (listeners q)) →
  (∀ p, visited q p → slot_ok m p) →
  visited q NULL →
  (∀ m0, appendEvent m0 NULL e = Some (m0, -1)) ∧
  ∃ m', sendEvent m q e = Some (m', -1) ∧
        mem_listeners m' !! NULL = mem_listeners m !! NULL.
Proof.
  intros Hwf Hlen Hok Hnull. split; [done |].
  destruct (sendEvent_returns m q e Hwf Hlen Hok) as (m' & r & Hrun & Hr).
  rewrite (Hr Hnull) in Hrun. exists m'. split; [done |].
  unfold sendEvent in Hrun.
  destruct (sendEvent_for _ _ _ _ _ _) as [[m1 errs] |] eqn:Hfor;
    [simpl in Hrun | discriminate].
  injection Hrun as <- _.
  destruct (sendEvent_for_frame _ _ _ _ _ _ _ _ Hfor) as (_ & _ & _ & Hframe).
  apply Hframe. by left.
Qed.

(** ** Two registrations on a fresh queue *)

Lemma addListener_for_here (n : nat) (i : Z) (q : mfsm_EventQueue) (el : N) :
  array_get (listeners q) i = Some NULL →
  addListener_for (S n) i q el =
    Some ({| listeners := <[Z.to_nat i := el]> (listeners q);
             numListeners := numListeners q + 1 |}, 0).
Proof.
  intros Hget. simpl. rewrite Hget; simpl.
  apply array_get_Some in Hget as [Hi Hlook%lookup_lt_Some].
  by rewrite array_set_in by lia.
Qed.

Lemma addListener_for_skip (n : nat) (i : Z) (q : mfsm_EventQueue) (el p : N) :
  array_get (listeners q) i = Some p → p ≠ NULL →
  addListener_for (S n) i q el = addListener_for n (i + 1) q el.
Proof. intros Hget Hp. simpl. rewrite Hget; simpl. by rewrite decide_False. Qed.

(** Initializing a queue and registering [A], then [B], fills slots 0 and 1
    in that order; [A] and [B] may be the same listener. *)
Lemma register_two (m : memory) (qp A B : N) (q0 : mfsm_EventQueue) :
  qp ≠ NULL → A ≠ NULL → B ≠ NULL →
  mem_queues m !! qp = Some q0 → queue_sized q0 → 2 <= MAX_EVENT_LISTENERS →
  ∃ m0 m1 m2 rest,
    initEventQueue m qp = Some m0 ∧
    addListener m0 qp A = Some (m1, 0) ∧
    addListener m1 qp B = Some (m2, 0) ∧
    mem_queues m2 !! qp =
      Some {| listeners := A :: B :: rest; numListeners := 2 |} ∧
    Z.of_nat (length (A :: B :: rest)) = MAX_EVENT_LISTENERS ∧
    Forall (λ p, p = NULL) rest ∧
    mem_listeners m2 = mem_listeners m ∧ mem_events m2 = mem_events m.
Proof.
  intros Hqp HA HB Hq Hsz Hmax.
  rewrite (initEventQueue_ok m qp q0 Hq Hsz).
  unfold queue_sized in Hsz. destruct q0 as [ls0 n0]. cbn [listeners] in *.
  destruct ls0 as [| a [| b rest0]]; cbn [length] in Hsz; [lia | lia |].
  cbn [length replicate].
  set (rest := replicate (length rest0) NULL).
  assert (Hto : Z.to_nat MAX_EVENT_LISTENERS = S (S (length rest0))) by lia.
  eexists _, _, _, rest. split; [done |].
  unfold addListener. rewrite !decide_False by done. cbn [mem_queues store_queue].
  rewrite lookup_insert_eq. cbn [mbind option_bind numListeners].
  rewrite bool_decide_false by lia. rewrite Hto.
  rewrite addListener_for_here by done. cbn [mbind option_bind].
  split; [done |].
  cbn [mem_queues store_queue]. rewrite lookup_insert_eq.
  cbn [mbind option_bind numListeners listeners].
  rewrite bool_decide_false by lia.
  rewrite (addListener_for_skip _ _ _ _ A) by done.
  rewrite addListener_for_here by done. cbn [mbind option_bind].
  split; [done |].
  cbn [mem_queues mem_listeners mem_events store_queue].
  rewrite lookup_insert_eq.
  split_and!; [done | | | done | done].
  - subst rest. cbn [length]. rewrite length_replicate. lia.
  - subst rest. apply Forall_forall. by intros p [-> _]%elem_of_replicate.
Qed.

(** C4: a broadcast that reaches only some listeners.  Listener [A] is
    registered first and is full (in the scenario the capacity is 1 and [A]
    holds one event), listener [B] is registered second and is empty.
    [sendEvent] with id 9 then returns -1; [A] is exactly the listener it
    was, count and buffer; [B] holds one event, which is not rolled back,
    and its next [getNextEvent] yields id 9. *)
Theorem sendEvent_partial_failure (m : memory) (qp A B dest : N)
    (q0 : mfsm_EventQueue) (lA lB : mfsm_EventListener) :
  qp ≠ NULL → A ≠ NULL → B ≠ NULL → A ≠ B → dest ≠ NULL →
  mem_queues m !! qp = Some q0 → queue_sized q0 →
  2 <= MAX_EVENT_LISTENERS → 1 <= MAX_EVENTS →
  mem_listeners m !! A = Some lA → wf_listener lA → numEvents lA = MAX_EVENTS →
  mem_listeners m !! B = Some lB → wf_listener lB → numEvents lB = 0 →
  is_Some (mem_events m !! dest) →
  ∃ m0 m1 m2 q m3 m4,
    initEventQueue m qp = Some m0 ∧
    addListener m0 qp A = Some (m1, 0) ∧
    addListener m1 qp B = Some (m2, 0) ∧
    mem_queues m2 !! qp = Some q ∧
    sendEvent m2 q {| id := 9 |} = Some (m3, -1) ∧
    mem_listeners m3 !! A = Some lA ∧
    numEvents <$> mem_listeners m3 !! B = Some 1 ∧
    getNextEvent m3 B dest = Some (m4, 0) ∧
    mem_events m4 !! dest = Some {| id := 9 |}.
Proof.
  intros Hqp HA HB HAB Hdest Hq Hsz Hmax Hcap HlA HwfA HfullA HlB HwfB HemptyB Hd.
  destruct (register_two m qp A B q0) as
    (m0 & m1 & m2 & rest & Hinit & Hadd1 & Hadd2 & Hq2 & _ & _ & Hls & Hes);
    [done .. |].
  set (e := {| id := 9 |}).
  assert (HgA : array_get (A :: B :: rest) 0 = Some A) by done.
  assert (HgB : array_get (A :: B :: rest) (0 + 1) = Some B) by done.
  pose proof HwfB as [HlenB _].
  assert (Hsend : sendEvent m2 {| listeners := A :: B :: rest; numListeners := 2 |} e
                  = Some (store_listener B (listener_push lB e) m2, -1)).
  { unfold sendEvent. cbn [numListeners]. change (Z.to_nat 2) with 2%nat.
    cbn [sendEvent_for listeners]. rewrite HgA. cbn [mbind option_bind].
    rewrite (appendEvent_full m2 A e lA) by (done || lia || by rewrite Hls).
    cbn [mbind option_bind]. rewrite HgB. cbn [mbind option_bind].
    rewrite (appendEvent_room m2 B e lB) by (done || lia || by rewrite Hls).
    cbn [mbind option_bind]. rewrite HemptyB. done. }
  destruct (listener_push_bounds lB e) as [HinB HbufB]; [lia |].
  assert (Hnil : buffered lB = []) by (unfold buffered; by rewrite HemptyB).
  rewrite Hnil in HbufB.
  destruct (getNextEvent_success (store_listener B (listener_push lB e) m2)
              B dest (listener_push lB e) [] e)
    as (m4 & Hget & Hd4 & _); [done | done | | | done | done |].
  { simpl. apply lookup_insert_eq. }
  { simpl. by rewrite Hes. }
  eexists m0, m1, m2, _, _, m4.
  split_and!; [done | done | done | done | done | | | |done].
  - simpl. rewrite lookup_insert_ne by done. by rewrite Hls.
  - simpl. rewrite lookup_insert_eq. simpl. by rewrite HemptyB.
  - rewrite Hget. simpl. by rewrite HemptyB.
Qed.

(** ** Duplicate registrations *)

Lemma occupied_pos (ls : list N) (j : nat) (p : N) :
  ls !! j = Some p → p ≠ NULL → 1 <= occupied ls.
Proof.
  intros Hj Hp. pose proof (occupied_insert ls j p NULL Hj) as Hins.
  rewrite decide_True in Hins by done. rewrite decide_False in Hins by tauto.
  pose proof (occupied_bounds (<[j := NULL]> ls)). lia.
Qed.

(** A listener registered in two slots of a well-formed queue: one
    [removeListener] clears the lower slot only and counts one registration
    less, the higher slot still names the listener, and a second
    [removeListener] succeeds as well. *)
Lemma removeListener_duplicate (m : memory) (qp el : N) (q : mfsm_EventQueue)
    (j1 j2 : nat) :
  qp ≠ NULL → el ≠ NULL → mem_queues m !! qp = Some q → queue_inv q →
  listeners q !! j1 = Some el → listeners q !! j2 = Some el → (j1 < j2)%nat →
  (∀ j', (j' < j1)%nat → listeners q !! j' ≠ Some el) →
  ∃ m1 m2,
    removeListener m qp el = Some (m1, 0) ∧
    mem_queues m1 !! qp =
      Some {| listeners := <[j1 := NULL]> (listeners q);
              numListeners := numListeners q - 1 |} ∧
    <[j1 := NULL]> (listeners q) !! j2 = Some el ∧
    removeListener m1 qp el = Some (m2, 0).
Proof.
  intros Hqp Hel Hq [Hsz Hcnt] Hj1 Hj2 Hlt Hfirst.
  assert (Hj2' : <[j1 := NULL]> (listeners q) !! j2 = Some el)
    by (rewrite list_lookup_insert_ne by lia; done).
  pose proof (occupied_pos _ _ _ Hj2' Hel) as Hpos.
  rewrite (occupied_insert _ _ el NULL Hj1) in Hpos.
  rewrite decide_True in Hpos by done. rewrite decide_False in Hpos by tauto.
  destruct (removeListener_scan m qp el q) as [(j & Hj & Hjfirst & Hrun) | [Hnotin _]];
    [done .. | lia | |].
  2: { exfalso. apply Hnotin. by eapply list_elem_of_lookup_2. }
  assert (j = j1) as ->.
  { destruct (Nat.lt_trichotomy j j1) as [Hc | [Hc | Hc]]; [| done |].
    - by destruct (Hfirst j Hc).
    - by destruct (Hjfirst j1 Hc). }
  set (q1 := {| listeners := <[j1 := NULL]> (listeners q);
                numListeners := numListeners q - 1 |}) in *.
  assert (Hq1 : mem_queues (store_queue qp q1 m) !! qp = Some q1)
    by (simpl; apply lookup_insert_eq).
  destruct (removeListener_scan (store_queue qp q1 m) qp el q1)
    as [(j & _ & _ & Hrun2) | [Hnotin _]]; [done | done | done | | | |].
  - unfold queue_sized in *. subst q1; simpl. by rewrite length_insert.
  - subst q1; simpl. lia.
  - eauto 10.
  - exfalso. apply Hnotin. by eapply list_elem_of_lookup_2.
Qed.

Lemma visited_Forall (m : memory) (q : mfsm_EventQueue) :
  Forall (slot_ok m) (listeners q) → ∀ p, visited q p → slot_ok m p.
Proof.
  intros Hall p (j & _ & [_ Hget]%array_get_Some).
  rewrite Forall_forall in Hall. apply Hall. by eapply list_elem_of_lookup_2.
Qed.

(** ** More on the listener *)

(** Every way [getNextEvent] can return: an error code with the memory as
    it was, or the pop. *)
Lemma getNextEvent_inv (m m' : memory) (el dest : N) (r : Z) :
  getNextEvent m el dest = Some (m', r) →
  (r < 0 ∧ m' = m) ∨
  (∃ l ev, el ≠ NULL ∧ dest ≠ NULL ∧ mem_listeners m !! el = Some l ∧
           1 <= numEvents l ∧
           array_get (events l) (numEvents l - 1) = Some ev ∧
           is_Some (mem_events m !! dest) ∧ r = numEvents l - 1 ∧
           m' = store_listener el (listener_pop l) (store_event dest ev m)).
Proof.
  unfold getNextEvent. destruct (decide (el = NULL)) as [-> | Hel].
  { intros [= <- <-]. left. split; [lia | done]. }
  destruct (decide (dest = NULL)) as [-> | Hdest].
  { intros [= <- <-]. left. split; [lia | done]. }
  destruct (mem_listeners m !! el) as [l |] eqn:Hl; [simpl | discriminate].
  destruct (bool_decide_reflect (numEvents l < 1)) as [Hempty | Hsome].
  { intros [= <- <-]. left. split; [lia | done]. }
  destruct (array_get _ _) as [ev |] eqn:Hget; [simpl | discriminate].
  destruct (mem_events m !! dest) as [d |] eqn:Hd; [simpl | discriminate].
  intros [= <- <-]. right. exists l, ev. rewrite event_eta.
  split_and!; try done; lia.
Qed.



Lemma wf_listeners_store (m : memory) (p : N) (l : mfsm_EventListener) :
  wf_listeners m → wf_listener l → wf_listeners (store_listener p l m).
Proof.
  intros Hwf Hl p' l'. simpl. destruct (decide (p = p')) as [<- | Hne].
  - rewrite lookup_insert_eq. by intros [= <-].
  - rewrite lookup_insert_ne by done. apply Hwf.
Qed.

Lemma sendEvent_for_wf (n : nat) (i : Z) (q : mfsm_EventQueue) (e : mfsm_Event)
    (m m' : memory) (errs errs' : Z) :
  wf_listeners m → sendEvent_for n i q e m errs = Some (m', errs') →
  wf_listeners m'.
Proof.
  revert i m errs. induction n as [| n IH]; intros i m errs Hwf; simpl.
  { by intros [= <- <-]. }
  destruct (array_get (listeners q) i) as [p0 |]; [simpl | discriminate].
  destruct (appendEvent m p0 e) as [[m1 r] |] eqn:Happ; [simpl | discriminate].
  apply IH.
  apply appendEvent_inv in Happ as [[_ ->] | (l & _ & Hl & Hn & Hroom & _ & ->)];
    [done |].
  apply wf_listeners_store; [done |]. apply listener_push_wf; [by eapply Hwf | done].
Qed.

(** X3: the listener invariant.  If every listener in memory has an array
    of [MAX_EVENTS] cells and a count between 0 and [MAX_EVENTS], the same
    holds after any returning call of [initEventListener], [appendEvent],
    [getNextEvent] or [sendEvent]. *)
Theorem listener_invariant_kept (m : memory) :
  wf_listeners m →
  (∀ el m', initEventListener m el = Some m' → wf_listeners m') ∧
  (∀ el e m' r, appendEvent m el e = Some (m', r) → wf_listeners m') ∧
  (∀ el dest m' r, getNextEvent m el dest = Some (m', r) → wf_listeners m') ∧
  (∀ q e m' r, sendEvent m q e = Some (m', r) → wf_listeners m').
Proof.
  intros Hwf. split_and!.
  - intros el m'. unfold initEventListener.
    destruct (mem_listeners m !! el) as [l |] eqn:Hl; [simpl | discriminate].
    intros [= <-]. apply wf_listeners_store; [done |].
    destruct (Hwf el l Hl) as [Hlen Hb]. unfold wf_listener, in_bounds in *.
    simpl. lia.
  - intros el e m' r
      [[_ ->] | (l & _ & Hl & Hn & Hroom & _ & ->)]%appendEvent_inv; [done |].
    apply wf_listeners_store; [done |].
    apply listener_push_wf; [by eapply Hwf | done].
  - intros el dest m' r
      [[_ ->] | (l & ev & _ & _ & Hl & Hn & _ & _ & _ & ->)]%getNextEvent_inv;
      [done |].
    apply wf_listeners_store; [by intros p' l'; apply Hwf |].
    destruct (Hwf el l Hl) as [Hlen Hb]. unfold wf_listener, in_bounds in *.
    simpl. lia.
  - intros q e m' r. unfold sendEvent.
    destruct (sendEvent_for _ _ _ _ _ _) as [[m1 errs] |] eqn:Hrun;
      [simpl | discriminate].
    intros [= <- _]. by eapply sendEvent_for_wf.
Qed.

(** X4: [initEventListener] empties a listener whatever its count was.  It
    writes the count only, so the array keeps its cells; afterwards a
    dequeue reports the empty error -3 and changes nothing, and a second
    initialization changes nothing either. *)
Theorem initEventListener_empties (m : memory) (el dest : N)
    (l : mfsm_EventListener) :
  el ≠ NULL → dest ≠ NULL → mem_listeners m !! el = Some l →
  ∃ m0,
    initEventListener m el = Some m0 ∧
    mem_listeners m0 !! el = Some {| events := events l; numEvents := 0 |} ∧
    getNextEvent m0 el dest = Some (m0, -3) ∧
    initEventListener m0 el = Some m0 ∧
    mem_events m0 = mem_events m ∧ mem_queues m0 = mem_queues m ∧
    (∀ p, p ≠ el → mem_listeners m0 !! p = mem_listeners m !! p).
Proof.
  intros Hel Hdest Hl. unfold initEventListener. rewrite Hl; simpl.
  eexists. split; [done |]. simpl. rewrite lookup_insert_eq; simpl.
  split_and!; try done.
  - unfold getNextEvent. rewrite !decide_False by done. simpl.
    by rewrite lookup_insert_eq.
  - unfold store_listener; simpl. by rewrite insert_insert_eq.
  - intros p Hp. by rewrite lookup_insert_ne.
Qed.




(** ** More on the registry *)

(** X6: [initEventQueue] resets a queue whatever it held: afterwards the
    count is 0 and every one of the [MAX_EVENT_LISTENERS] slots is null,
    listeners and events are untouched, and a second initialization changes
    nothing.  On the fresh queue a broadcast returns 0 without touching
    anything, and removing any listener reports -2 (already empty). *)
Theorem initEventQueue_resets (m : memory) (qp : N) (q : mfsm_EventQueue) :
  qp ≠ NULL → mem_queues m !! qp = Some q → queue_sized q →
  ∃ m0 q0,
    initEventQueue m qp = Some m0 ∧
    mem_queues m0 !! qp = Some q0 ∧
    q0 = {| listeners := replicate (Z.to_nat MAX_EVENT_LISTENERS) NULL;
            numListeners := 0 |} ∧
    initEventQueue m0 qp = Some m0 ∧
    mem_listeners m0 = mem_listeners m ∧ mem_events m0 = mem_events m ∧
    (∀ e, sendEvent m0 q0 e = Some (m0, 0)) ∧
    (∀ el, el ≠ NULL → removeListener m0 qp el = Some (m0, -2)).
Proof.
  intros Hqp Hq Hsz. pose proof Hsz as Hlen. unfold queue_sized in Hlen.
  set (q0 := {| listeners := replicate (Z.to_nat MAX_EVENT_LISTENERS) NULL;
                numListeners := 0 |}).
  assert (Hinit : initEventQueue m qp = Some (store_queue qp q0 m)).
  { rewrite (initEventQueue_ok m qp q Hq Hsz). subst q0.
    by rewrite <- Hlen, Nat2Z.id. }
  assert (Hq0 : mem_queues (store_queue qp q0 m) !! qp = Some q0)
    by (simpl; apply lookup_insert_eq).
  assert (Hsz0 : queue_sized q0).
  { unfold queue_sized. subst q0. simpl. rewrite length_replicate. lia. }
  exists (store_queue qp q0 m), q0. split_and!; try done.
  - rewrite (initEventQueue_ok _ qp q0 Hq0 Hsz0). f_equal.
    unfold store_queue; simpl. rewrite insert_insert_eq.
    subst q0; simpl. by rewrite length_replicate.
  - intros el Hel. by apply (removeListener_empty _ qp el q0).
Qed.

(** X7: the null checks of the registry come first, in the same order for
    [addListener] and [removeListener]: a null queue gives -1 even when the
    listener is null as well; a null listener gives -3 before the count is
    looked at; only then a full registry makes [addListener] return -2 and
    an empty one makes [removeListener] return -2.  The memory is unchanged
    in every one of these cases. *)
Theorem registry_error_priority (m : memory) (qp el : N) :
  (qp = NULL → addListener m qp el = Some (m, -1) ∧
               removeListener m qp el = Some (m, -1)) ∧
  (qp ≠ NULL → el = NULL → addListener m qp el = Some (m, -3) ∧
                           removeListener m qp el = Some (m, -3)) ∧
  (qp ≠ NULL → el ≠ NULL → ∀ q, mem_queues m !! qp = Some q →
     (MAX_EVENT_LISTENERS <= numListeners q →
      addListener m qp el = Some (m, -2)) ∧
     (numListeners q < 1 → removeListener m qp el = Some (m, -2))).
Proof.
  split_and!.
  - intros ->. done.
  - intros Hqp ->. unfold addListener, removeListener.
    rewrite !(decide_False (P := qp = NULL)) by done.
    by rewrite !decide_True by done.
  - intros Hqp Hel q Hq. split; intros Hn.
    + by apply (addListener_full m qp el q).
    + by apply (removeListener_empty m qp el q).
Qed.

(** X8: the outcome of [addListener] on a registry whose count matches its
    slots.  With non-null arguments it returns 0 exactly when the count is
    below [MAX_EVENT_LISTENERS]; it then stores the listener in the
    lowest-indexed null slot, leaves every other slot alone and raises the
    count by one, without asking whether the listener is registered
    already.  Otherwise it returns -2 and the memory is unchanged. *)
Theorem addListener_result (m : memory) (qp el : N) (q : mfsm_EventQueue) :
  qp ≠ NULL → el ≠ NULL → mem_queues m !! qp = Some q → queue_inv q →
  ∃ m' r,
    addListener m qp el = Some (m', r) ∧
    (r = 0 ↔ numListeners q < MAX_EVENT_LISTENERS) ∧
    (r ≠ 0 → r = -2 ∧ m' = m) ∧
    (r = 0 →
     ∃ j, listeners q !! j = Some NULL ∧
          (∀ j', (j' < j)%nat → listeners q !! j' ≠ Some NULL) ∧
          mem_queues m' !! qp =
            Some {| listeners := <[j := el]> (listeners q);
                    numListeners := numListeners q + 1 |}).
Proof.
  intros Hqp Hel Hq Hinv.
  destruct (decide (numListeners q < MAX_EVENT_LISTENERS)) as [Hroom | Hfull].
  - destruct (addListener_ok m qp el q) as (j & Hj & Hfirst & Hrun); [done .. |].
    eexists _, 0. split_and!; [done | done | done |].
    intros _. exists j. split_and!; [done | done |].
    simpl. apply lookup_insert_eq.
  - exists m, (-2). split_and!; [| | done | discriminate].
    + apply (addListener_full m qp el q); [done .. | lia].
    + split; [discriminate | lia].
Qed.

(** X9: the [return -2] after the loop of [addListener].  If the count
    claims room but no slot is null (a state the interface itself never
    produces), the scan finds nothing, the call returns -2 and the memory
    is unchanged. *)
Theorem addListener_fallback (m : memory) (qp el : N) (q : mfsm_EventQueue) :
  qp ≠ NULL → el ≠ NULL → mem_queues m !! qp = Some q → queue_sized q →
  numListeners q < MAX_EVENT_LISTENERS → (NULL ∉ listeners q) →
  addListener m qp el = Some (m, -2).
Proof.
  intros Hqp Hel Hq Hsz Hroom Hnn. unfold queue_sized in Hsz.
  unfold addListener. rewrite !decide_False by done. rewrite Hq; simpl.
  rewrite bool_decide_false by lia. rewrite <- Hsz, Nat2Z.id.
  destruct (addListener_for_spec (length (listeners q)) 0 q el)
    as [(j & _ & Hnull & _) | [_ Hrun]]; [simpl; lia | |].
  - exfalso. apply Hnn. by eapply list_elem_of_lookup_2.
  - change (Z.of_nat 0) with 0 in Hrun. rewrite Hrun; simpl.
    by rewrite store_queue_same.
Qed.

(** X10: registering a listener that is not yet in the registry and
    removing it again restores the memory exactly: the listener went into
    the lowest null slot, and that is the slot [removeListener] clears. *)
Theorem addListener_removeListener_roundtrip (m : memory) (qp el : N)
    (q : mfsm_EventQueue) :
  qp ≠ NULL → el ≠ NULL → mem_queues m !! qp = Some q → queue_inv q →
  numListeners q < MAX_EVENT_LISTENERS → (el ∉ listeners q) →
  ∃ m1, addListener m qp el = Some (m1, 0) ∧
        removeListener m1 qp el = Some (m, 0).
Proof.
  intros Hqp Hel Hq Hinv Hroom Hnotin. pose proof Hinv as [Hsz Hcnt].
  destruct (addListener_ok m qp el q) as (j & Hj & _ & Hadd); [done .. |].
  set (q1 := {| listeners := <[j := el]> (listeners q);
                numListeners := numListeners q + 1 |}) in *.
  exists (store_queue qp q1 m). split; [done |].
  assert (Hjlt : (j < length (listeners q))%nat) by (by eapply lookup_lt_Some).
  pose proof (occupied_bounds (listeners q)).
  destruct (removeListener_scan (store_queue qp q1 m) qp el q1)
    as [(j' & Hj' & _ & Hrem) | [Hnotin1 _]]; [done | done | | | | |].
  - simpl. apply lookup_insert_eq.
  - unfold queue_sized in *. subst q1; simpl. by rewrite length_insert.
  - subst q1; simpl. lia.
  - rewrite Hrem. do 2 f_equal. subst q1. simpl in *.
    assert (j' = j) as ->.
    { destruct (decide (j' = j)) as [-> | Hne]; [done |].
      rewrite list_lookup_insert_ne in Hj' by done.
      exfalso. apply Hnotin. by eapply list_elem_of_lookup_2. }
    rewrite list_insert_insert_eq, (list_insert_id _ _ _ Hj).
    replace (numListeners q + 1 - 1) with (numListeners q) by lia.
    unfold store_queue; simpl. rewrite insert_insert_eq.
    destruct q as [ls n]; simpl. apply (store_queue_same m qp _ Hq).
  - exfalso. apply Hnotin1. subst q1; simpl.
    apply (list_elem_of_lookup_2 _ j). by apply list_lookup_insert_eq.
Qed.

(** X11: a successful [removeListener].  On a sized queue counting at least
    one registration, a listener that occurs in some slot is removed with
    return 0: the lowest-indexed slot holding it is set to null, every
    other slot keeps its content, and the count drops by one. *)
Theorem removeListener_removes_lowest (m : memory) (qp el : N)
    (q : mfsm_EventQueue) :
  qp ≠ NULL → el ≠ NULL → mem_queues m !! qp = Some q → queue_sized q →
  1 <= numListeners q → el ∈ listeners q →
  ∃ j m',
    listeners q !! j = Some el ∧
    (∀ j', (j' < j)%nat → listeners q !! j' ≠ Some el) ∧
    removeListener m qp el = Some (m', 0) ∧
    mem_queues m' !! qp =
      Some {| listeners := <[j := NULL]> (listeners q);
              numListeners := numListeners q - 1 |} ∧
    (∀ j', j' ≠ j → <[j := NULL]> (listeners q) !! j' = listeners q !! j').
Proof.
  intros Hqp Hel Hq Hsz Hcnt Hin.
  destruct (removeListener_scan m qp el q)
    as [(j & Hj & Hfirst & Hrun) | [Hnotin _]]; [done .. | | done].
  eexists j, _. split_and!; [done | done | done | |].
  - simpl. apply lookup_insert_eq.
  - intros j' Hne. by rewrite list_lookup_insert_ne.
Qed.

Lemma same_but_queue_refl (qp : N) (m : memory) : same_but_queue qp m m.
Proof. by unfold same_but_queue. Qed.

Lemma same_but_queue_store (qp : N) (q : mfsm_EventQueue) (m : memory) :
  same_but_queue qp m (store_queue qp q m).
Proof.
  unfold same_but_queue; simpl. split_and!; [done | done |].
  intros qp' Hne. by rewrite lookup_insert_ne.
Qed.

(** X12: the registry functions change nothing but the queue they are
    given.  Whenever [initEventQueue], [addListener] or [removeListener]
    returns, every listener object, every event object and every other
    queue object is what it was: registration never reads or writes a
    listener's buffer. *)
Theorem registry_frame (m : memory) (qp : N) :
  (∀ m', initEventQueue m qp = Some m' → same_but_queue qp m m') ∧
  (∀ el m' r, addListener m qp el = Some (m', r) → same_but_queue qp m m') ∧
  (∀ el m' r, removeListener m qp el = Some (m', r) → same_but_queue qp m m').
Proof.
  split_and!.
  - intros m'. unfold initEventQueue.
    destruct (mem_queues m !! qp) as [q |]; [simpl | discriminate].
    destruct (initEventQueue_for _ _ _) as [ls |]; [simpl | discriminate].
    intros [= <-]. apply same_but_queue_store.
  - intros el m' r. unfold addListener.
    repeat case_decide; try (intros [= <- <-]; apply same_but_queue_refl).
    destruct (mem_queues m !! qp) as [q |]; [simpl | discriminate].
    case_bool_decide; [intros [= <- <-]; apply same_but_queue_refl |].
    destruct (addListener_for _ _ _ _) as [[q' r'] |]; [simpl | discriminate].
    intros [= <- <-]. apply same_but_queue_store.
  - intros el m' r. unfold removeListener.
    repeat case_decide; try (intros [= <- <-]; apply same_but_queue_refl).
    destruct (mem_queues m !! qp) as [q |]; [simpl | discriminate].
    case_bool_decide; [intros [= <- <-]; apply same_but_queue_refl |].
    destruct (removeListener_for _ _ _ _) as [[q' r'] |]; [simpl | discriminate].
    intros [= <- <-]. apply same_but_queue_store.
Qed.

(** ** More on the broadcast *)

Lemma sendEvent_for_delivers (n : nat) (i : Z) (q : mfsm_EventQueue)
    (e : mfsm_Event) (m : memory) (errs : Z) :
  0 <= i → i + Z.of_nat n <= Z.of_nat (length (listeners q)) →
  (∀ j p, i <= j < i + Z.of_nat n → array_get (listeners q) j = Some p →
          has_room m p) →
  (∀ j1 j2 p, i <= j1 < j2 → j2 < i + Z.of_nat n →
              array_get (listeners q) j1 = Some p →
              array_get (listeners q) j2 ≠ Some p) →
  ∃ m', sendEvent_for n i q e m errs = Some (m', errs) ∧
        ∀ j p l, i <= j < i + Z.of_nat n →
                 array_get (listeners q) j = Some p →
                 mem_listeners m !! p = Some l →
                 mem_listeners m' !! p = Some (listener_push l e).
Proof.
  revert i m. induction n as [| n IH]; intros i m Hi Hlen Hroom Hdist; simpl.
  { exists m. split; [done |]. intros j p l Hj. lia. }
  destruct (array_get_in (listeners q) i) as [p0 Hget]; [lia |].
  rewrite Hget; simpl.
  destruct (Hroom i p0) as (Hp0 & l0 & Hl0 & [Hlen0 Hb0] & Hroom0); [lia | done |].
  unfold in_bounds in Hb0.
  rewrite (appendEvent_room m p0 e l0) by (done || lia). simpl.
  rewrite bool_decide_false by lia.
  set (m1 := store_listener p0 (listener_push l0 e) m).
  assert (Hother : ∀ j p, i + 1 <= j < i + 1 + Z.of_nat n →
                          array_get (listeners q) j = Some p →
                          mem_listeners m1 !! p = mem_listeners m !! p).
  { intros j p Hj Hp. subst m1; simpl. apply lookup_insert_ne.
    intros ->. apply (Hdist i j p); (done || lia). }
  destruct (IH (i + 1) m1) as (m' & Hrun & Hpush); [lia | lia | | |].
  { intros j p Hj Hp. destruct (Hroom j p) as (Hnn & l & Hl & Hwf & Hr);
      [lia | done |].
    split; [done |]. exists l. by rewrite (Hother j p). }
  { intros j1 j2 p Hj1 Hj2. apply Hdist; lia. }
  exists m'. split; [done |].
  intros j p l Hj Hp Hl. destruct (decide (j = i)) as [-> | Hne].
  - rewrite Hget in Hp. injection Hp as <-. rewrite Hl0 in Hl. injection Hl as <-.
    destruct (sendEvent_for_frame _ _ _ _ _ _ _ _ Hrun) as (_ & _ & _ & Hframe).
    rewrite Hframe.
    + subst m1; simpl. apply lookup_insert_eq.
    + right. intros j' Hj'. apply (Hdist i j' p0); (done || lia).
  - apply (Hpush j p l); [lia | done |]. rewrite (Hother j p); (done || lia).
Qed.

(** X13: a broadcast that reaches everyone it visits.  If the slots below
    [numListeners] hold pairwise different, non-null pointers to well-formed
    listeners with room, [sendEvent] returns 0; each of these listeners has
    the event written at its old count and the count raised by one, so the
    event is the last of its buffered events; every other listener is
    unchanged. *)
Theorem sendEvent_delivers (m : memory) (q : mfsm_EventQueue) (e : mfsm_Event) :
  numListeners q <= Z.of_nat (length (listeners q)) →
  (∀ p, visited q p → has_room m p) → distinct_visited q →
  ∃ m', sendEvent m q e = Some (m', 0) ∧
        (∀ p l, visited q p → mem_listeners m !! p = Some l →
                mem_listeners m' !! p = Some (listener_push l e) ∧
                buffered (listener_push l e) = buffered l ++ [e]) ∧
        (∀ p, ¬ visited q p → mem_listeners m' !! p = mem_listeners m !! p).
Proof.
  intros Hlen Hroom Hdist.
  destruct (sendEvent_for_delivers (Z.to_nat (numListeners q)) 0 q e m 0)
    as (m' & Hrun & Hpush); [lia | lia | | |].
  { intros j p Hj Hp. apply Hroom. by eapply visited_range. }
  { intros j1 j2 p Hj1 Hj2. apply Hdist; lia. }
  exists m'. unfold sendEvent. rewrite Hrun; simpl. split_and!; [done | |].
  - intros p l (j & Hj & Hp) Hl. split; [apply (Hpush j p l); (done || lia) |].
    destruct (Hroom p) as (_ & l' & Hl' & [Hlen' Hb'] & Hr'); [by exists j |].
    rewrite Hl in Hl'. injection Hl' as <-. unfold in_bounds in Hb'.
    apply listener_push_bounds. lia.
  - intros p Hnv.
    destruct (sendEvent_for_frame _ _ _ _ _ _ _ _ Hrun) as (_ & _ & _ & Hframe).
    apply Hframe. right. intros j Hj Hp. apply Hnv. by eapply visited_range.
Qed.

Lemma sendEvent_for_full (n : nat) (i : Z) (q : mfsm_EventQueue) (e : mfsm_Event)
    (m : memory) (errs : Z) (p : N) (l : mfsm_EventListener) :
  0 <= i → i + Z.of_nat n <= Z.of_nat (length (listeners q)) →
  wf_listeners m →
  (∀ j p', i <= j < i + Z.of_nat n → array_get (listeners q) j = Some p' →
           slot_ok m p') →
  p ≠ NULL → mem_listeners m !! p = Some l → MAX_EVENTS <= numEvents l →
  ∃ m' errs', sendEvent_for n i q e m errs = Some (m', errs') ∧
              errs <= errs' ∧ mem_listeners m' !! p = Some l ∧
              ((∃ j, i <= j < i + Z.of_nat n ∧
                     array_get (listeners q) j = Some p) → errs < errs').
Proof.
  intros Hi Hlen Hwf Hok Hp Hl Hfull. revert i m errs Hi Hlen Hwf Hok Hl.
  induction n as [| n IH]; intros i m errs Hi Hlen Hwf Hok Hl; simpl.
  { exists m, errs. split_and!; [done | lia | done |]. intros (j & Hj & _). lia. }
  destruct (array_get_in (listeners q) i) as [p0 Hget]; [lia |].
  rewrite Hget; simpl.
  destruct (appendEvent_total m p0 e Hwf) as (m1 & r & Happ & Hwf1 & _).
  { apply (Hok i); [lia | done]. }
  rewrite Happ; simpl.
  destruct (appendEvent_frame _ _ _ _ _ Happ) as (_ & _ & Hd1 & Hframe1).
  assert (Hl1 : mem_listeners m1 !! p = Some l ∧ (p0 = p → r < 0)).
  { destruct (decide (p0 = p)) as [-> | Hne].
    - rewrite (appendEvent_full m p e l) in Happ by done.
      injection Happ as <- <-. split; [done | lia].
    - split; [| done]. rewrite Hframe1; [done | by right]. }
  destruct Hl1 as [Hl1 Hneg].
  destruct (IH (i + 1) m1 (if bool_decide (r < 0) then errs + 1 else errs))
    as (m' & errs' & Hrun & Hle & Hl' & Hlt); [lia | lia | done | | done |].
  { intros j p' Hj Hp'. destruct (Hok j p') as [-> | Hsome]; [lia | done | by left |].
    right. apply elem_of_dom. rewrite Hd1. by apply elem_of_dom. }
  exists m', errs'. split; [done |].
  assert (errs <= if bool_decide (r < 0) then errs + 1 else errs)
    by (case_bool_decide; lia).
  split_and!; [lia | done |].
  intros (j & Hj & Hj0). destruct (decide (j = i)) as [-> | Hne].
  - rewrite Hget in Hj0. injection Hj0 as ->.
    rewrite bool_decide_true in Hle by auto. lia.
  - enough ((if bool_decide (r < 0) then errs + 1 else errs) < errs') by lia.
    apply Hlt. exists j. split; [lia | done].
Qed.

(** X14: one full listener fails the broadcast.  On well-formed arguments,
    if a listener the loop visits is already full, [sendEvent] returns -1
    and that listener is exactly what it was, however many slots name
    it. *)
Theorem sendEvent_full_listener (m : memory) (q : mfsm_EventQueue)
    (e : mfsm_Event) (p : N) (l : mfsm_EventListener) :
  wf_listeners m →
  numListeners q <= Z.of_nat (length (listeners q)) →
  (∀ p', visited q p' → slot_ok m p') →
  visited q p → p ≠ NULL → mem_listeners m !! p = Some l →
  MAX_EVENTS <= numEvents l →
  ∃ m', sendEvent m q e = Some (m', -1) ∧ mem_listeners m' !! p = Some l.
Proof.
  intros Hwf Hlen Hok (j & Hj & Hget) Hp Hl Hfull.
  destruct (sendEvent_for_full (Z.to_nat (numListeners q)) 0 q e m 0 p l)
    as (m' & errs & Hrun & Hle & Hl' & Hlt); [lia | lia | done | | done .. |].
  { intros j' p' Hj' Hp'. apply Hok. by eapply visited_range. }
  exists m'. unfold sendEvent. rewrite Hrun; simpl. split; [| done].
  rewrite decide_True; [done |].
  enough (0 < errs) by lia. apply Hlt. exists j. split; [lia | done].
Qed.

(** ** Whole scenarios *)

Lemma array_get_0 {A} (x : A) (a : list A) : array_get (x :: a) 0 = Some x.
Proof. done. Qed.

Lemma array_get_1 {A} (x y : A) (a : list A) :
  array_get (x :: y :: a) (0 + 1) = Some y.
Proof. done. Qed.

(** X15: publish and consume.  An event object is given id [i] with
    [initEvent]; a queue is initialized and two different listeners with
    room are registered; the event is broadcast by value.  [sendEvent]
    returns 0, and each listener's next [getNextEvent] succeeds, returns
    the count the listener had before the broadcast and copies the event,
    id [i], to the destination. *)
Theorem broadcast_reaches_both (m : memory) (qp A B ep dest : N) (i : Z)
    (q0 : mfsm_EventQueue) (lA lB : mfsm_EventListener) :
  qp ≠ NULL → A ≠ NULL → B ≠ NULL → A ≠ B → dest ≠ NULL →
  mem_queues m !! qp = Some q0 → queue_sized q0 → 2 <= MAX_EVENT_LISTENERS →
  mem_listeners m !! A = Some lA → wf_listener lA → numEvents lA < MAX_EVENTS →
  mem_listeners m !! B = Some lB → wf_listener lB → numEvents lB < MAX_EVENTS →
  is_Some (mem_events m !! ep) → is_Some (mem_events m !! dest) →
  ∃ me e m0 m1 m2 q m3 m4 m5,
    initEvent m ep i = Some me ∧
    mem_events me !! ep = Some e ∧ id e = i ∧
    initEventQueue me qp = Some m0 ∧
    addListener m0 qp A = Some (m1, 0) ∧
    addListener m1 qp B = Some (m2, 0) ∧
    mem_queues m2 !! qp = Some q ∧
    sendEvent m2 q e = Some (m3, 0) ∧
    getNextEvent m3 A dest = Some (m4, numEvents lA) ∧
    mem_events m4 !! dest = Some e ∧
    getNextEvent m4 B dest = Some (m5, numEvents lB) ∧
    mem_events m5 !! dest = Some e.
Proof.
  intros Hqp HA HB HAB Hdest Hq Hsz Hmax HlA HwfA HroomA HlB HwfB HroomB
    [e0 Hep] Hd.
  set (e := {| id := i |}). set (me := store_event ep e m).
  assert (Hinit : initEvent m ep i = Some me)
    by (unfold initEvent; rewrite Hep; done).
  destruct (register_two me qp A B q0) as
    (m0 & m1 & m2 & rest & Hq0 & Hadd1 & Hadd2 & Hq2 & _ & _ & Hls & Hes);
    [done .. |].
  pose proof HwfA as [HlenA HbA]. pose proof HwfB as [HlenB HbB].
  unfold in_bounds in HbA, HbB.
  set (m2a := store_listener A (listener_push lA e) m2).
  set (m3 := store_listener B (listener_push lB e) m2a).
  assert (Hsend : sendEvent m2 {| listeners := A :: B :: rest; numListeners := 2 |} e
                  = Some (m3, 0)).
  { unfold sendEvent. cbn [numListeners]. change (Z.to_nat 2) with 2%nat.
    cbn [sendEvent_for listeners]. rewrite array_get_0. cbn [mbind option_bind].
    rewrite (appendEvent_room m2 A e lA) by (done || lia || by rewrite Hls).
    fold m2a. cbn [mbind option_bind]. rewrite bool_decide_false by lia.
    rewrite array_get_1. cbn [mbind option_bind].
    rewrite (appendEvent_room m2a B e lB);
      [| done | subst m2a; simpl; rewrite lookup_insert_ne by done; by rewrite Hls
       | lia | lia].
    cbn [mbind option_bind]. rewrite bool_decide_false by lia. done. }
  destruct (listener_push_bounds lA e) as [HinA HbufA]; [lia |].
  destruct (listener_push_bounds lB e) as [HinB HbufB]; [lia |].
  assert (Hd3 : is_Some (mem_events m3 !! dest)).
  { subst m3 m2a; simpl. rewrite Hes. subst me; simpl.
    apply lookup_insert_is_Some. destruct (decide (ep = dest)); [by left | by right]. }
  pose proof (getNextEvent_pop m3 A dest (listener_push lA e) (buffered lA) e
                HA Hdest) as HgetA.
  set (m4 := store_listener A (listener_pop (listener_push lA e))
               (store_event dest e m3)) in *.
  pose proof (getNextEvent_pop m4 B dest (listener_push lB e) (buffered lB) e
                HB Hdest) as HgetB.
  eexists me, e, m0, m1, m2, _, m3, m4, _.
  split_and!; [done | | done | done | done | done | done | done | | | |].
  - subst me; simpl. apply lookup_insert_eq.
  - rewrite HgetA; [| | done | done | done].
    + simpl. do 2 f_equal. lia.
    + subst m3 m2a; simpl. rewrite lookup_insert_ne by done.
      apply lookup_insert_eq.
  - subst m4; simpl. apply lookup_insert_eq.
  - rewrite HgetB; [| | | done | done].
    + simpl. do 2 f_equal. lia.
    + subst m4 m3; simpl. rewrite lookup_insert_ne by done.
      apply lookup_insert_eq.
    + subst m4; simpl. rewrite lookup_insert_eq. by eexists.
  - simpl. apply lookup_insert_eq.
Qed.

(** X16: a listener registered twice is served twice.  [addListener]
    accepts the second registration of the same listener; a broadcast then
    enqueues the event into it once per slot.  With room for two events
    [sendEvent] returns 0 and the listener holds two copies; with room for
    exactly one it returns -1 although one copy was delivered. *)
Theorem duplicate_registration_delivers_twice (m : memory) (qp A : N)
    (q0 : mfsm_EventQueue) (lA : mfsm_EventListener) (e : mfsm_Event) :
  qp ≠ NULL → A ≠ NULL →
  mem_queues m !! qp = Some q0 → queue_sized q0 → 2 <= MAX_EVENT_LISTENERS →
  mem_listeners m !! A = Some lA → wf_listener lA →
  ∃ m0 m1 m2 q,
    initEventQueue m qp = Some m0 ∧
    addListener m0 qp A = Some (m1, 0) ∧
    addListener m1 qp A = Some (m2, 0) ∧
    mem_queues m2 !! qp = Some q ∧ numListeners q = 2 ∧
    (numEvents lA + 2 <= MAX_EVENTS →
     ∃ m3, sendEvent m2 q e = Some (m3, 0) ∧
           mem_listeners m3 !! A
           = Some (listener_push (listener_push lA e) e)) ∧
    (numEvents lA + 1 = MAX_EVENTS →
     ∃ m3, sendEvent m2 q e = Some (m3, -1) ∧
           mem_listeners m3 !! A = Some (listener_push lA e)).
Proof.
  intros Hqp HA Hq Hsz Hmax HlA HwfA.
  destruct (register_two m qp A A q0) as
    (m0 & m1 & m2 & rest & Hq0 & Hadd1 & Hadd2 & Hq2 & _ & _ & Hls & Hes);
    [done .. |].
  pose proof HwfA as [HlenA HbA]. unfold in_bounds in HbA.
  set (m2a := store_listener A (listener_push lA e) m2).
  assert (Hl2a : mem_listeners m2a !! A = Some (listener_push lA e))
    by (subst m2a; simpl; apply lookup_insert_eq).
  eexists m0, m1, m2, _. split_and!; [done | done | done | done | done | |].
  - intros Hroom. eexists.
    unfold sendEvent. cbn [numListeners]. change (Z.to_nat 2) with 2%nat.
    cbn [sendEvent_for listeners]. rewrite array_get_0. cbn [mbind option_bind].
    rewrite (appendEvent_room m2 A e lA) by (done || lia || by rewrite Hls).
    fold m2a. cbn [mbind option_bind]. rewrite bool_decide_false by lia.
    rewrite array_get_1. cbn [mbind option_bind].
    rewrite (appendEvent_room m2a A e (listener_push lA e));
      [| done | done | simpl; rewrite length_insert; lia | simpl; lia].
    cbn [mbind option_bind]. rewrite bool_decide_false by (simpl; lia).
    split; [done |]. simpl. apply lookup_insert_eq.
  - intros Hroom. exists m2a.
    unfold sendEvent. cbn [numListeners]. change (Z.to_nat 2) with 2%nat.
    cbn [sendEvent_for listeners]. rewrite array_get_0. cbn [mbind option_bind].
    rewrite (appendEvent_room m2 A e lA) by (done || lia || by rewrite Hls).
    fold m2a. cbn [mbind option_bind]. rewrite bool_decide_false by lia.
    rewrite array_get_1. cbn [mbind option_bind].
    rewrite (appendEvent_full m2a A e (listener_push lA e));
      [| done | done | simpl; lia].
    cbn [mbind option_bind]. split; [done | done].
Qed.

(** ** A registry that was never shrunk *)

Lemma occupied_app (l1 l2 : list N) :
  occupied (l1 ++ l2) = occupied l1 + occupied l2.
Proof. unfold occupied. rewrite filter_app, length_app. lia. Qed.

(** In a packed registry whose count matches its slots, every taken slot
    lies below [numListeners]. *)
Lemma packed_covers (q : mfsm_EventQueue) (k : nat) (p : N) :
  queue_inv q → packed q → listeners q !! k = Some p → p ≠ NULL →
  Z.of_nat k < numListeners q.
Proof.
  intros [_ Hcnt] Hpacked Hk Hp.
  destruct (decide (Z.of_nat k < numListeners q)) as [| Hge]; [done | exfalso].
  pose proof (occupied_bounds (listeners q)) as Hocc.
  set (n := Z.to_nat (numListeners q)).
  assert (Htake : occupied (take n (listeners q)) = Z.of_nat n).
  { rewrite occupied_no_null; [rewrite length_take; lia |].
    intros j Hj. pose proof (lookup_lt_Some _ _ _ Hj) as Hlt.
    rewrite length_take in Hlt. rewrite lookup_take_lt in Hj by lia.
    apply (Hpacked (Z.of_nat j) NULL); [lia | by rewrite array_get_nat | done]. }
  pose proof (occupied_app (take n (listeners q)) (drop n (listeners q))) as Happ.
  rewrite take_drop in Happ.
  assert (Hdrop : 1 <= occupied (drop n (listeners q))).
  { apply (occupied_pos _ (k - n) p); [| done].
    rewrite lookup_drop. by replace (n + (k - n))%nat with k by lia. }
  lia.
Qed.

Lemma addListener_preserves_packed (m m' : memory) (qp el : N) (r : Z)
    (q : mfsm_EventQueue) :
  mem_queues m !! qp = Some q → queue_inv q → packed q →
  addListener m qp el = Some (m', r) →
  ∃ q', mem_queues m' !! qp = Some q' ∧ queue_inv q' ∧ packed q'.
Proof.
  intros Hq Hinv Hpacked Hadd.
  destruct (decide (qp = NULL)) as [Hqp | Hqp].
  { unfold addListener in Hadd. rewrite decide_True in Hadd by done.
    injection Hadd as <- <-. eauto. }
  destruct (decide (el = NULL)) as [Hel | Hel].
  { unfold addListener in Hadd.
    rewrite decide_False, decide_True in Hadd by done.
    injection Hadd as <- <-. eauto. }
  destruct (decide (numListeners q < MAX_EVENT_LISTENERS)) as [Hroom | Hfull].
  2: { rewrite (addListener_full m qp el q) in Hadd by (done || lia).
       injection Hadd as <- <-. eauto. }
  destruct (addListener_preserves m m' qp el r q Hq Hinv Hadd) as (q' & Hq' & Hinv').
  exists q'. split_and!; [done | done |].
  destruct (addListener_ok m qp el q) as (j & Hj & Hfirst & Hrun); [done .. |].
  rewrite Hrun in Hadd. injection Hadd as <- <-.
  simpl in Hq'. rewrite lookup_insert_eq in Hq'. injection Hq' as <-.
  intros k p Hk Hget. simpl in Hk, Hget.
  apply array_get_Some in Hget as [Hk0 Hget].
  destruct (decide (Z.to_nat k = j)) as [Hkj | Hkj].
  - subst j. rewrite list_lookup_insert_eq in Hget by (by eapply lookup_lt_Some).
    by injection Hget as <-.
  - rewrite list_lookup_insert_ne in Hget by done.
    destruct (decide (k < numListeners q)) as [Hlt | Hge].
    + apply (Hpacked k p); [lia | by apply array_get_Some].
    + intros ->. destruct (decide (j < Z.to_nat k)%nat) as [Hjk | Hjk].
      * apply (Hpacked (Z.of_nat j) NULL); [lia | by rewrite array_get_nat | done].
      * apply (Hfirst (Z.to_nat k)); [lia | done].
Qed.

(** X17: as long as no listener was ever removed, the broadcast loop reads
    every registration.  In a memory reached from [initEventQueue] by
    calls of [addListener] alone, the taken slots are exactly the slots
    below [numListeners], so every non-null pointer stored in the registry
    is one [sendEvent] visits. *)
Theorem grown_registry_is_visited (qp : N) (m : memory) :
  grown qp m →
  ∃ q, mem_queues m !! qp = Some q ∧ packed q ∧
       numListeners q = occupied (listeners q) ∧
       ∀ p, p ≠ NULL → p ∈ listeners q → visited q p.
Proof.
  intros Hgrown.
  assert (∃ q, mem_queues m !! qp = Some q ∧ queue_inv q ∧ packed q)
    as (q & Hq & Hinv & Hpacked).
  { induction Hgrown as [m q m0 Hq Hsz Hinit
                        | m el m' r _ (q & Hq & Hinv & Hpacked) Hadd].
    - rewrite (initEventQueue_ok m qp q Hq Hsz) in Hinit. injection Hinit as <-.
      eexists. split; [simpl; apply lookup_insert_eq |]. split.
      + unfold queue_inv, queue_sized; simpl.
        by rewrite length_replicate, occupied_replicate_null.
      + intros j p Hj. simpl in Hj. lia.
    - by eapply addListener_preserves_packed. }
  exists q. split_and!; [done | done | by destruct Hinv |].
  intros p Hp [k Hk]%list_elem_of_lookup_1.
  exists (Z.of_nat k). split.
  - pose proof (packed_covers q k p Hinv Hpacked Hk Hp). lia.
  - by rewrite array_get_nat.
Qed.

Lemma occupied_full_no_null (ls : list N) :
  occupied ls = Z.of_nat (length ls) → NULL ∉ ls.
Proof.
  intros Hfull [k Hk]%list_elem_of_lookup_1.
  pose proof (occupied_insert ls k NULL 1%N Hk) as Hins.
  rewrite decide_False in Hins by tauto. rewrite decide_True in Hins by done.
  pose proof (occupied_bounds (<[k := 1%N]> ls)) as Hb.
  rewrite length_insert in Hb. lia.
Qed.

(** X18: no call on a reachable registry leaves the array.  In every memory
    reached from [initEventQueue] by [addListener] and [removeListener],
    both functions return for every listener argument, with one of their
    documented codes: 0, -2 or -3 for [addListener], and 0, -2, -3 or -4
    for [removeListener]. *)
Theorem reachable_calls_return (qp : N) (m : memory) :
  qp ≠ NULL → reachable qp m →
  ∀ el,
    (∃ m' r, addListener m qp el = Some (m', r) ∧
             (r = 0 ∨ r = -2 ∨ r = -3)) ∧
    (∃ m' r, removeListener m qp el = Some (m', r) ∧
             (r = 0 ∨ r = -2 ∨ r = -3 ∨ r = -4)).
Proof.
  intros Hqp (q & Hq & Hinv)%reachable_queue_inv el.
  pose proof Hinv as [Hsz Hcnt].
  destruct (decide (el = NULL)) as [-> | Hel].
  { split; [unfold addListener | unfold removeListener];
      rewrite (decide_False (P := qp = NULL)) by done;
      rewrite decide_True by done;
      eexists _, _; (split; [reflexivity | tauto]). }
  split.
  - destruct (decide (numListeners q < MAX_EVENT_LISTENERS)) as [Hroom | Hfull].
    + destruct (addListener_ok m qp el q) as (j & _ & _ & Hrun); [done .. |].
      eexists _, _. split; [done | tauto].
    + eexists _, _.
      split; [apply (addListener_full m qp el q); (done || lia) | tauto].
  - destruct (decide (numListeners q < 1)) as [Hempty | Hsome].
    + eexists _, _.
      split; [by apply (removeListener_empty m qp el q) | tauto].
    + destruct (removeListener_scan m qp el q)
        as [(j & _ & _ & Hrun) | [_ Hrun]]; [done .. | lia | |];
        eexists _, _; (split; [done | tauto]).
Qed.

(** X19: removing a listener from a full registry makes room for exactly
    one.  When all [MAX_EVENT_LISTENERS] slots are taken and [el] is among
    them, [removeListener] returns 0 and a following [addListener] of any
    listener returns 0 as well; the newcomer goes into the slot [el] was
    removed from, and the registry is full again. *)
Theorem removeListener_frees_a_slot (m : memory) (qp el el' : N)
    (q : mfsm_EventQueue) :
  qp ≠ NULL → el ≠ NULL → el' ≠ NULL → mem_queues m !! qp = Some q →
  queue_inv q → numListeners q = MAX_EVENT_LISTENERS → el ∈ listeners q →
  ∃ j m1 m2,
    listeners q !! j = Some el ∧
    removeListener m qp el = Some (m1, 0) ∧
    addListener m1 qp el' = Some (m2, 0) ∧
    mem_queues m2 !! qp =
      Some {| listeners := <[j := el']> (listeners q);
              numListeners := MAX_EVENT_LISTENERS |} ∧
    addListener m2 qp el = Some (m2, -2).
Proof.
  intros Hqp Hel Hel' Hq Hinv Hfull Hin. pose proof Hinv as [Hsz Hcnt].
  unfold queue_sized in Hsz.
  assert (Hnonull : NULL ∉ listeners q)
    by (apply occupied_full_no_null; lia).
  pose proof (list_elem_of_lookup_1 _ _ Hin) as [k Hk].
  pose proof (lookup_lt_Some _ _ _ Hk) as Hklt.
  destruct (removeListener_scan m qp el q)
    as [(j & Hj & _ & Hrem) | [Hnotin _]]; [done .. | lia | | done].
  set (q1 := {| listeners := <[j := NULL]> (listeners q);
                numListeners := numListeners q - 1 |}) in *.
  assert (Hq1 : mem_queues (store_queue qp q1 m) !! qp = Some q1)
    by (simpl; apply lookup_insert_eq).
  destruct (removeListener_preserves m _ qp el 0 q Hq Hinv Hrem)
    as (q1' & Hq1' & Hinv1).
  rewrite Hq1 in Hq1'. injection Hq1' as <-.
  destruct (addListener_ok (store_queue qp q1 m) qp el' q1)
    as (j' & Hj' & _ & Hadd); [done | done | done | done | subst q1; simpl; lia |].
  assert (j' = j) as ->.
  { destruct (decide (j' = j)) as [| Hne]; [done | exfalso].
    subst q1. simpl in Hj'. rewrite list_lookup_insert_ne in Hj' by done.
    apply Hnonull. by eapply list_elem_of_lookup_2. }
  eexists j, _, _. split_and!; [done | done | done | |].
  - simpl. rewrite lookup_insert_eq. subst q1. simpl.
    rewrite list_insert_insert_eq. do 2 f_equal. lia.
  - eapply addListener_full; [done | done | simpl; apply lookup_insert_eq |].
    subst q1; simpl. lia.
Qed.

Lemma visited_elem (q : mfsm_EventQueue) (p : N) :
  visited q p → p ∈ listeners q.
Proof.
  intros (j & _ & [_ Hget]%array_get_Some). by eapply list_elem_of_lookup_2.
Qed.

End Event.

(** ** The example memories *)

Lemma example_memory_wf (cap slots : nat) (ls : list N) (n : Z) :
  wf_listeners (Z.of_nat cap) (with_queue ls n (example_memory cap slots)).
Proof.
  intros p l. simpl.
  intros [[_ <-] | [_ [_ <-]%lookup_singleton_Some]]%lookup_insert_Some;
    unfold wf_listener, in_bounds; simpl; rewrite length_replicate; lia.
Qed.

Lemma example_memory_slots (cap slots : nat) (ls : list N) (n : Z) (p : N) :
  p ∈ [NULL; 1%N; 2%N] → slot_ok (with_queue ls n (example_memory cap slots)) p.
Proof.
  intros Hp. repeat (apply elem_of_cons in Hp as [-> | Hp]); [by left | | |].
  - right. simpl. rewrite lookup_insert_eq. by eexists.
  - right. simpl. rewrite lookup_insert_ne, lookup_singleton_eq by done. by eexists.
  - by apply elem_of_nil in Hp.
Qed.

(** The registration states of the two-slot example queue that the
    examples below start from are reached through the interface. *)
Lemma example_reachable_fresh :
  reachable 2 3 (with_queue [NULL; NULL] 0 (example_memory 1 2)).
Proof.
  apply (reach_init 2 3 (example_memory 1 2)
           {| listeners := [7%N; 7%N]; numListeners := 5 |});
    vm_compute; reflexivity.
Qed.

Lemma example_reachable_two (a b : N) :
  a ∈ [1%N; 2%N] → b ∈ [1%N; 2%N] →
  reachable 2 3 (with_queue [a; b] 2 (example_memory 1 2)).
Proof.
  intros Ha Hb.
  apply (reach_add 2 3 (with_queue [a; NULL] 1 (example_memory 1 2)) b _ 0).
  - apply (reach_add 2 3 (with_queue [NULL; NULL] 0 (example_memory 1 2)) a _ 0);
      [apply example_reachable_fresh |].
    repeat (apply elem_of_cons in Ha as [-> | Ha]);
      [vm_compute; reflexivity .. | by apply elem_of_nil in Ha].
  - repeat (apply elem_of_cons in Ha as [-> | Ha]);
      repeat (apply elem_of_cons in Hb as [-> | Hb]);
      try (by apply elem_of_nil in Ha); try (by apply elem_of_nil in Hb);
      vm_compute; reflexivity.
Qed.

(** ** The broadcast loop on a registry with a hole *)

(** C1: [sendEvent] runs its loop over the indices below [numListeners],
    not over all [MAX_EVENT_LISTENERS] slots.  Register the listeners at
    addresses 1 and 2 in a two-slot queue and remove the first: the queue
    is then [[NULL; 2]] with [numListeners = 1].  [sendEvent] reads slot 0
    only, returns -1, and gives back the memory it got: the listener at
    address 2, still registered in slot 1, has received nothing. *)
Theorem sendEvent_misses_registered_listener :
  reachable 2 3 (with_queue [NULL; 2%N] 1 (example_memory 1 2)) ∧
  sendEvent 1 (with_queue [NULL; 2%N] 1 (example_memory 1 2))
    {| listeners := [NULL; 2%N]; numListeners := 1 |} {| id := 7 |}
  = Some (with_queue [NULL; 2%N] 1 (example_memory 1 2), -1).
Proof.
  split; [| vm_compute; reflexivity].
  apply (reach_remove 2 3 (with_queue [1%N; 2%N] 2 (example_memory 1 2)) 1 _ 0);
    [| vm_compute; reflexivity].
  apply example_reachable_two; repeat constructor.
Qed.

(** C10: the listener at address 1 registered twice in a two-slot queue.
    One [removeListener] returns 0, clears slot 0 only and leaves
    [numListeners = 1]; a second [removeListener] returns 0 as well.  In
    between, [sendEvent] reads slot 0 only, which is now null: it returns
    -1 and the listener, still registered in slot 1, receives nothing. *)
Theorem sendEvent_after_duplicate_removal :
  reachable 2 3 (with_queue [1%N; 1%N] 2 (example_memory 1 2)) ∧
  removeListener 2 (with_queue [1%N; 1%N] 2 (example_memory 1 2)) 3 1
  = Some (with_queue [NULL; 1%N] 1 (example_memory 1 2), 0) ∧
  sendEvent 1 (with_queue [NULL; 1%N] 1 (example_memory 1 2))
    {| listeners := [NULL; 1%N]; numListeners := 1 |} {| id := 7 |}
  = Some (with_queue [NULL; 1%N] 1 (example_memory 1 2), -1) ∧
  removeListener 2 (with_queue [NULL; 1%N] 1 (example_memory 1 2)) 3 1
  = Some (with_queue [NULL; NULL] 0 (example_memory 1 2), 0).
Proof.
  split; [apply example_reachable_two; repeat constructor |].
  split_and!; vm_compute; reflexivity.
Qed.

(** ** Instances *)

(** The three error returns of [getNextEvent] on the example memory. *)
Lemma getNextEvent_error_priority_witness :
  getNextEvent (example_memory 1 2) NULL NULL = Some (example_memory 1 2, -1) ∧
  getNextEvent (example_memory 1 2) 1 NULL = Some (example_memory 1 2, -2) ∧
  getNextEvent (example_memory 1 2) 1 9 = Some (example_memory 1 2, -3).
Proof.
  split_and!.
  - by apply (getNextEvent_error_priority (example_memory 1 2) NULL NULL).
  - by apply (getNextEvent_error_priority (example_memory 1 2) 1 NULL).
  - destruct (getNextEvent_error_priority (example_memory 1 2) 1 9)
      as (_ & _ & Hempty).
    apply (Hempty ltac:(done) ltac:(done) (blank_listener 1));
      [reflexivity | simpl; lia].
Defined.

(** Capacity 4: ids 1, 2, 3 pushed into the listener at address 1 and
    popped into the event at address 9. *)
Lemma getNextEvent_lifo_witness :
  appendEvent 4 (pushed 4 []) 1 {| id := 1 |} = Some (pushed 4 [1], 1) ∧
  appendEvent 4 (pushed 4 [1]) 1 {| id := 2 |} = Some (pushed 4 [1; 2], 2) ∧
  appendEvent 4 (pushed 4 [1; 2]) 1 {| id := 3 |} = Some (pushed 4 [1; 2; 3], 3) ∧
  ∃ m4 m5 m6,
    getNextEvent (pushed 4 [1; 2; 3]) 1 9 = Some (m4, 3 - 1) ∧
    mem_events m4 !! 9%N = Some {| id := 3 |} ∧
    numEvents <$> mem_listeners m4 !! 1%N = Some (3 - 1) ∧
    getNextEvent m4 1 9 = Some (m5, 3 - 2) ∧
    mem_events m5 !! 9%N = Some {| id := 2 |} ∧
    numEvents <$> mem_listeners m5 !! 1%N = Some (3 - 2) ∧
    getNextEvent m5 1 9 = Some (m6, 3 - 3) ∧
    mem_events m6 !! 9%N = Some {| id := 1 |} ∧
    numEvents <$> mem_listeners m6 !! 1%N = Some (3 - 3).
Proof.
  assert (H1 : appendEvent 4 (pushed 4 []) 1 {| id := 1 |} = Some (pushed 4 [1], 1))
    by (vm_compute; reflexivity).
  assert (H2 : appendEvent 4 (pushed 4 [1]) 1 {| id := 2 |} = Some (pushed 4 [1; 2], 2))
    by (vm_compute; reflexivity).
  assert (H3 : appendEvent 4 (pushed 4 [1; 2]) 1 {| id := 3 |}
               = Some (pushed 4 [1; 2; 3], 3))
    by (vm_compute; reflexivity).
  split_and!; [exact H1 | exact H2 | exact H3 |].
  apply (getNextEvent_lifo 4 (pushed 4 []) (pushed 4 [1]) (pushed 4 [1; 2])
           (pushed 4 [1; 2; 3]) 1 9 1 2 3 H1 ltac:(lia) H2 ltac:(lia) H3 ltac:(lia)).
  - done.
  - by eexists.
Defined.

(** Capacity 2: any sequence of enqueues into the listener at address 1. *)
Lemma appendEvent_count_and_full_witness :
  ∃ m0, initEventListener (example_memory 2 2) 1 = Some m0 ∧
    ∀ es, ∃ m' rs l',
      appendEvents 2 m0 1 es = Some (m', rs) ∧
      mem_listeners m' !! 1%N = Some l' ∧
      numEvents l' = successes rs ∧
      successes rs = Z.min (Z.of_nat (length es)) 2 ∧
      (numEvents l' = 2 → ∀ e, appendEvent 2 m' 1 e = Some (m', -2)).
Proof.
  apply (appendEvent_count_and_full 2 (example_memory 2 2) 1 (blank_listener 2));
    [done | reflexivity | reflexivity].
Defined.

(** Capacity 1, two slots: the full listener at address 1 and the empty
    one at address 2. *)
Lemma sendEvent_partial_failure_witness :
  ∃ m0 m1 m2 q m3 m4,
    initEventQueue 2 full_and_empty 3 = Some m0 ∧
    addListener 2 m0 3 1 = Some (m1, 0) ∧
    addListener 2 m1 3 2 = Some (m2, 0) ∧
    mem_queues m2 !! 3%N = Some q ∧
    sendEvent 1 m2 q {| id := 9 |} = Some (m3, -1) ∧
    mem_listeners m3 !! 1%N = Some {| events := [{| id := 5 |}]; numEvents := 1 |} ∧
    numEvents <$> mem_listeners m3 !! 2%N = Some 1 ∧
    getNextEvent m3 2 9 = Some (m4, 0) ∧
    mem_events m4 !! 9%N = Some {| id := 9 |}.
Proof.
  apply (sendEvent_partial_failure 1 2 full_and_empty 3 1 2 9
           {| listeners := [7%N; 7%N]; numListeners := 5 |}
           {| events := [{| id := 5 |}]; numEvents := 1 |} (blank_listener 1));
    [done | done | done | done | done | reflexivity | reflexivity | lia | lia
    | reflexivity | unfold wf_listener, in_bounds; simpl; lia | reflexivity
    | reflexivity | unfold wf_listener, in_bounds; simpl; lia | reflexivity
    | by eexists].
Defined.

(** Two slots holding the listener at address 2 only; the listener at
    address 1 is not found. *)
Lemma removeListener_empty_and_not_found_witness :
  (numListeners {| listeners := [2%N; NULL]; numListeners := 1 |} = 0 →
   removeListener 2 (with_queue [2%N; NULL] 1 (example_memory 1 2)) 3 1
   = Some (with_queue [2%N; NULL] 1 (example_memory 1 2), -2)) ∧
  ∃ m' r,
    removeListener 2 (with_queue [2%N; NULL] 1 (example_memory 1 2)) 3 1
    = Some (m', r) ∧
    (r = -4 ↔ 1 <= numListeners {| listeners := [2%N; NULL]; numListeners := 1 |} ∧
              (1%N ∉ listeners {| listeners := [2%N; NULL]; numListeners := 1 |})) ∧
    (r = -4 → m' = with_queue [2%N; NULL] 1 (example_memory 1 2)).
Proof.
  apply (removeListener_empty_and_not_found 2
           (with_queue [2%N; NULL] 1 (example_memory 1 2)) 3 1
           {| listeners := [2%N; NULL]; numListeners := 1 |});
    [done | done | reflexivity | reflexivity].
Defined.

(** The two-slot queue with both slots taken. *)
Lemma registry_invariant_witness :
  ∃ q, mem_queues (with_queue [1%N; 2%N] 2 (example_memory 1 2)) !! 3%N = Some q ∧
       numListeners q = occupied (listeners q) ∧
       numListeners q <= 2 ∧
       (numListeners q = 2 →
        ∀ el, el ≠ NULL →
              addListener 2 (with_queue [1%N; 2%N] 2 (example_memory 1 2)) 3 el
              = Some (with_queue [1%N; 2%N] 2 (example_memory 1 2), -2)).
Proof.
  apply (registry_invariant 2 3 (with_queue [1%N; 2%N] 2 (example_memory 1 2)));
    [done | apply example_reachable_two; repeat constructor].
Defined.

(** A broadcast to both example listeners leaves the queue objects alone. *)
Lemma sendEvent_by_value_witness :
  ∃ m' r,
    sendEvent 1 (with_queue [1%N; 2%N] 2 (example_memory 1 2))
      {| listeners := [1%N; 2%N]; numListeners := 2 |} {| id := 7 |} = Some (m', r) ∧
    mem_queues m' = mem_queues (with_queue [1%N; 2%N] 2 (example_memory 1 2)).
Proof.
  destruct (sendEvent_by_value 1 (with_queue [1%N; 2%N] 2 (example_memory 1 2))
              {| listeners := [1%N; 2%N]; numListeners := 2 |} {| id := 7 |})
    as [Hframe Hreturns].
  destruct Hreturns as (m' & r & Hrun).
  - apply (example_memory_wf 1 2).
  - simpl. lia.
  - apply visited_Forall.
    repeat (apply Forall_cons_2;
            [apply example_memory_slots; repeat constructor |]).
    apply Forall_nil_2.
  - exists m', r. split; [exact Hrun |]. apply (Hframe m' r Hrun).
Defined.

(** A broadcast over the queue [[NULL; 2]] with one registration counted. *)
Lemma sendEvent_null_slot_witness :
  (∀ m0, appendEvent 1 m0 NULL {| id := 7 |} = Some (m0, -1)) ∧
  ∃ m', sendEvent 1 (with_queue [NULL; 2%N] 1 (example_memory 1 2))
          {| listeners := [NULL; 2%N]; numListeners := 1 |} {| id := 7 |}
        = Some (m', -1) ∧
        mem_listeners m' !! NULL
        = mem_listeners (with_queue [NULL; 2%N] 1 (example_memory 1 2)) !! NULL.
Proof.
  apply (sendEvent_null_slot 1 (with_queue [NULL; 2%N] 1 (example_memory 1 2))
           {| listeners := [NULL; 2%N]; numListeners := 1 |} {| id := 7 |}).
  - apply (example_memory_wf 1 2).
  - simpl. lia.
  - apply visited_Forall.
    repeat (apply Forall_cons_2;
            [apply example_memory_slots; repeat constructor |]).
    apply Forall_nil_2.
  - exists 0. split; [simpl; lia | reflexivity].
Defined.

(** ** Further instances *)

Lemma example_memory_room (cap slots : nat) (ls : list N) (n : Z) (p : N) :
  p ∈ [1%N; 2%N] →
  has_room (Z.of_nat (S cap)) (with_queue ls n (example_memory (S cap) slots)) p.
Proof.
  intros Hp.
  repeat (apply elem_of_cons in Hp as [-> | Hp]); [| | by apply elem_of_nil in Hp];
    (split; [done |]); exists (blank_listener (S cap)); split_and!.
  - simpl. by rewrite lookup_insert_eq.
  - unfold wf_listener, in_bounds; simpl. rewrite length_replicate. lia.
  - simpl. lia.
  - simpl. by rewrite lookup_insert_ne, lookup_singleton_eq.
  - unfold wf_listener, in_bounds; simpl. rewrite length_replicate. lia.
  - simpl. lia.
Qed.

Lemma example_distinct (a b : N) (rest : list N) :
  a ≠ b →
  distinct_visited {| listeners := a :: b :: rest; numListeners := 2 |}.
Proof.
  intros Hab j1 j2 p Hj1 Hj2. simpl in Hj2.
  assert (j1 = 0) as -> by lia. assert (j2 = 1) as -> by lia.
  intros [= <-] [= ->]. done.
Qed.

Lemma full_and_empty_wf (ls : list N) (n : Z) :
  wf_listeners 1 (with_queue ls n full_and_empty).
Proof.
  intros p l. simpl.
  intros [[_ <-] | [_ [[_ <-] | [_ [_ <-]%lookup_singleton_Some]]%lookup_insert_Some]]%lookup_insert_Some;
    unfold wf_listener, in_bounds; simpl; lia.
Qed.

Lemma full_and_empty_slots (ls : list N) (n : Z) (p : N) :
  p ∈ [NULL; 1%N; 2%N] → slot_ok (with_queue ls n full_and_empty) p.
Proof.
  intros Hp. repeat (apply elem_of_cons in Hp as [-> | Hp]); [by left | | |].
  - right. simpl. rewrite lookup_insert_eq. by eexists.
  - right. simpl. rewrite !lookup_insert_ne, lookup_singleton_eq by done.
    by eexists.
  - by apply elem_of_nil in Hp.
Qed.

Lemma example_grown_two :
  grown 2 3 (with_queue [1%N; 2%N] 2 (example_memory 1 2)).
Proof.
  apply (grown_add 2 3 (with_queue [1%N; NULL] 1 (example_memory 1 2)) 2 _ 0);
    [| vm_compute; reflexivity].
  apply (grown_add 2 3 (with_queue [NULL; NULL] 0 (example_memory 1 2)) 1 _ 0);
    [| vm_compute; reflexivity].
  apply (grown_init 2 3 (example_memory 1 2)
           {| listeners := [7%N; 7%N]; numListeners := 5 |});
    vm_compute; reflexivity.
Qed.



(** Capacity 1: the invariant across a broadcast on the example memory. *)
Lemma listener_invariant_kept_witness :
  sendEvent 1 (with_queue [1%N; 2%N] 2 (example_memory 1 2))
    {| listeners := [1%N; 2%N]; numListeners := 2 |} {| id := 7 |}
  = Some (store_listener 2 (listener_push (blank_listener 1) {| id := 7 |})
            (store_listener 1 (listener_push (blank_listener 1) {| id := 7 |})
               (with_queue [1%N; 2%N] 2 (example_memory 1 2))), 0) ∧
  wf_listeners 1
    (store_listener 2 (listener_push (blank_listener 1) {| id := 7 |})
       (store_listener 1 (listener_push (blank_listener 1) {| id := 7 |})
          (with_queue [1%N; 2%N] 2 (example_memory 1 2)))).
Proof.
  assert (Hrun :
    sendEvent 1 (with_queue [1%N; 2%N] 2 (example_memory 1 2))
      {| listeners := [1%N; 2%N]; numListeners := 2 |} {| id := 7 |}
    = Some (store_listener 2 (listener_push (blank_listener 1) {| id := 7 |})
              (store_listener 1 (listener_push (blank_listener 1) {| id := 7 |})
                 (with_queue [1%N; 2%N] 2 (example_memory 1 2))), 0))
    by (vm_compute; reflexivity).
  split; [exact Hrun |].
  destruct (listener_invariant_kept 1
              (with_queue [1%N; 2%N] 2 (example_memory 1 2))
              (example_memory_wf 1 2 _ _)) as (_ & _ & _ & Hsend).
  exact (Hsend _ _ _ _ Hrun).
Defined.

(** Re-initializing the listener that holds ids 1 and 2. *)
Lemma initEventListener_empties_witness :
  ∃ m0,
    initEventListener (pushed 4 [1; 2]) 1 = Some m0 ∧
    getNextEvent m0 1 9 = Some (m0, -3) ∧
    initEventListener m0 1 = Some m0.
Proof.
  destruct (initEventListener_empties (pushed 4 [1; 2]) 1 9
              (listener_push (listener_push (blank_listener 4) {| id := 1 |})
                 {| id := 2 |}))
    as (m0 & Hinit & _ & Hget & Hagain & _); [done | done | reflexivity |].
  exists m0. split_and!; [exact Hinit | exact Hget | exact Hagain].
Defined.


(** Two slots: the queue object with arbitrary fields is reset. *)
Lemma initEventQueue_resets_witness :
  ∃ m0 q0,
    initEventQueue 2 (example_memory 1 2) 3 = Some m0 ∧
    mem_queues m0 !! 3%N = Some q0 ∧
    q0 = {| listeners := [NULL; NULL]; numListeners := 0 |} ∧
    initEventQueue 2 m0 3 = Some m0.
Proof.
  destruct (initEventQueue_resets 1 2 (example_memory 1 2) 3
              {| listeners := [7%N; 7%N]; numListeners := 5 |})
    as (m0 & q0 & Hinit & Hq0 & Hfresh & Hagain & _);
    [done | reflexivity | reflexivity |].
  exists m0, q0. split_and!; [exact Hinit | exact Hq0 | exact Hfresh | exact Hagain].
Defined.

(** The null checks on the example memory with a full two-slot queue. *)
Lemma registry_error_priority_witness :
  addListener 2 (with_queue [1%N; 2%N] 2 (example_memory 1 2)) NULL NULL
  = Some (with_queue [1%N; 2%N] 2 (example_memory 1 2), -1) ∧
  removeListener 2 (with_queue [1%N; 2%N] 2 (example_memory 1 2)) 3 NULL
  = Some (with_queue [1%N; 2%N] 2 (example_memory 1 2), -3) ∧
  addListener 2 (with_queue [1%N; 2%N] 2 (example_memory 1 2)) 3 1
  = Some (with_queue [1%N; 2%N] 2 (example_memory 1 2), -2).
Proof.
  split_and!.
  - by apply (registry_error_priority 2
                (with_queue [1%N; 2%N] 2 (example_memory 1 2)) NULL NULL).
  - by apply (registry_error_priority 2
                (with_queue [1%N; 2%N] 2 (example_memory 1 2)) 3 NULL).
  - destruct (registry_error_priority 2
                (with_queue [1%N; 2%N] 2 (example_memory 1 2)) 3 1)
      as (_ & _ & Hfull).
    apply (Hfull ltac:(done) ltac:(done)
             {| listeners := [1%N; 2%N]; numListeners := 2 |});
      [reflexivity | simpl; lia].
Defined.

(** Two slots, one taken: the listener at address 2 is registered. *)
Lemma addListener_result_witness :
  ∃ m' r,
    addListener 2 (with_queue [1%N; NULL] 1 (example_memory 1 2)) 3 2 = Some (m', r) ∧
    (r = 0 ↔ 1 < 2) ∧
    (r = 0 →
     ∃ j, [1%N; NULL] !! j = Some NULL ∧
          mem_queues m' !! 3%N =
            Some {| listeners := <[j := 2%N]> [1%N; NULL]; numListeners := 1 + 1 |}).
Proof.
  destruct (addListener_result 2 (with_queue [1%N; NULL] 1 (example_memory 1 2)) 3 2
              {| listeners := [1%N; NULL]; numListeners := 1 |})
    as (m' & r & Hrun & Hiff & _ & Hslot);
    [done | done | reflexivity | split; reflexivity |].
  exists m', r. split_and!; [exact Hrun | exact Hiff |].
  intros Hr. destruct (Hslot Hr) as (j & Hj & _ & Hq). eauto.
Defined.

(** Two slots, both taken, but the count says 1. *)
Lemma addListener_fallback_witness :
  addListener 2 (with_queue [1%N; 2%N] 1 (example_memory 1 2)) 3 2
  = Some (with_queue [1%N; 2%N] 1 (example_memory 1 2), -2).
Proof.
  apply (addListener_fallback 2 (with_queue [1%N; 2%N] 1 (example_memory 1 2)) 3 2
           {| listeners := [1%N; 2%N]; numListeners := 1 |});
    [done | done | reflexivity | reflexivity | simpl; lia |].
  intros [H | [H | H%elem_of_nil]%elem_of_cons]%elem_of_cons; done.
Defined.

(** Two slots, one taken: the listener at address 2 comes and goes. *)
Lemma addListener_removeListener_roundtrip_witness :
  ∃ m1,
    addListener 2 (with_queue [1%N; NULL] 1 (example_memory 1 2)) 3 2 = Some (m1, 0) ∧
    removeListener 2 m1 3 2
    = Some (with_queue [1%N; NULL] 1 (example_memory 1 2), 0).
Proof.
  apply (addListener_removeListener_roundtrip 2
           (with_queue [1%N; NULL] 1 (example_memory 1 2)) 3 2
           {| listeners := [1%N; NULL]; numListeners := 1 |});
    [done | done | reflexivity | split; reflexivity | simpl; lia |].
  intros [H | [H | H%elem_of_nil]%elem_of_cons]%elem_of_cons; done.
Defined.

(** Two slots, both taken: the listener at address 2 is removed. *)
Lemma removeListener_removes_lowest_witness :
  ∃ j m',
    [1%N; 2%N] !! j = Some 2%N ∧
    removeListener 2 (with_queue [1%N; 2%N] 2 (example_memory 1 2)) 3 2
    = Some (m', 0) ∧
    mem_queues m' !! 3%N =
      Some {| listeners := <[j := NULL]> [1%N; 2%N]; numListeners := 2 - 1 |}.
Proof.
  destruct (removeListener_removes_lowest 2
              (with_queue [1%N; 2%N] 2 (example_memory 1 2)) 3 2
              {| listeners := [1%N; 2%N]; numListeners := 2 |})
    as (j & m' & Hj & _ & Hrun & Hq & _);
    [done | done | reflexivity | reflexivity | simpl; lia
    | simpl; repeat constructor |].
  exists j, m'. split_and!; [exact Hj | exact Hrun | exact Hq].
Defined.

(** Registering on the example memory leaves its listeners alone. *)
Lemma registry_frame_witness :
  addListener 2 (with_queue [1%N; NULL] 1 (example_memory 1 2)) 3 2
  = Some (with_queue [1%N; 2%N] 2 (example_memory 1 2), 0) ∧
  same_but_queue 3 (with_queue [1%N; NULL] 1 (example_memory 1 2))
    (with_queue [1%N; 2%N] 2 (example_memory 1 2)).
Proof.
  assert (Hrun :
    addListener 2 (with_queue [1%N; NULL] 1 (example_memory 1 2)) 3 2
    = Some (with_queue [1%N; 2%N] 2 (example_memory 1 2), 0))
    by (vm_compute; reflexivity).
  split; [exact Hrun |].
  destruct (registry_frame 2 (with_queue [1%N; NULL] 1 (example_memory 1 2)) 3)
    as (_ & Hadd & _).
  exact (Hadd _ _ _ Hrun).
Defined.

(** Capacity 1, two slots: both empty listeners receive the event. *)
Lemma sendEvent_delivers_witness :
  ∃ m',
    sendEvent 1 (with_queue [1%N; 2%N] 2 (example_memory 1 2))
      {| listeners := [1%N; 2%N]; numListeners := 2 |} {| id := 7 |} = Some (m', 0) ∧
    mem_listeners m' !! 1%N = Some (listener_push (blank_listener 1) {| id := 7 |}) ∧
    mem_listeners m' !! 2%N = Some (listener_push (blank_listener 1) {| id := 7 |}).
Proof.
  destruct (sendEvent_delivers 1 (with_queue [1%N; 2%N] 2 (example_memory 1 2))
              {| listeners := [1%N; 2%N]; numListeners := 2 |} {| id := 7 |})
    as (m' & Hrun & Hpush & _).
  - simpl. lia.
  - intros p Hp%visited_elem. by apply (example_memory_room 0 2).
  - by apply example_distinct.
  - exists m'. split_and!; [exact Hrun | |].
    + apply (Hpush 1%N (blank_listener 1)); [| reflexivity].
      exists 0. split; [simpl; lia | reflexivity].
    + apply (Hpush 2%N (blank_listener 1)); [| reflexivity].
      exists 1. split; [simpl; lia | reflexivity].
Defined.

(** Capacity 1: the full listener at address 1 fails the broadcast. *)
Lemma sendEvent_full_listener_witness :
  ∃ m',
    sendEvent 1 (with_queue [1%N; 2%N] 2 full_and_empty)
      {| listeners := [1%N; 2%N]; numListeners := 2 |} {| id := 9 |} = Some (m', -1) ∧
    mem_listeners m' !! 1%N
    = Some {| events := [{| id := 5 |}]; numEvents := 1 |}.
Proof.
  apply (sendEvent_full_listener 1 (with_queue [1%N; 2%N] 2 full_and_empty)
           {| listeners := [1%N; 2%N]; numListeners := 2 |} {| id := 9 |} 1
           {| events := [{| id := 5 |}]; numEvents := 1 |}).
  - apply full_and_empty_wf.
  - simpl. lia.
  - intros p Hp%visited_elem. apply full_and_empty_slots.
    simpl in Hp. by apply list_elem_of_further.
  - exists 0. split; [simpl; lia | reflexivity].
  - done.
  - reflexivity.
  - simpl. lia.
Defined.

(** Capacity 1, two slots: the event object at address 9 is published and
    read back into the same object. *)
Lemma broadcast_reaches_both_witness :
  ∃ me e m0 m1 m2 q m3 m4 m5,
    initEvent (example_memory 1 2) 9 7 = Some me ∧
    mem_events me !! 9%N = Some e ∧ id e = 7 ∧
    initEventQueue 2 me 3 = Some m0 ∧
    addListener 2 m0 3 1 = Some (m1, 0) ∧
    addListener 2 m1 3 2 = Some (m2, 0) ∧
    mem_queues m2 !! 3%N = Some q ∧
    sendEvent 1 m2 q e = Some (m3, 0) ∧
    getNextEvent m3 1 9 = Some (m4, numEvents (blank_listener 1)) ∧
    mem_events m4 !! 9%N = Some e ∧
    getNextEvent m4 2 9 = Some (m5, numEvents (blank_listener 1)) ∧
    mem_events m5 !! 9%N = Some e.
Proof.
  apply (broadcast_reaches_both 1 2 (example_memory 1 2) 3 1 2 9 9 7
           {| listeners := [7%N; 7%N]; numListeners := 5 |}
           (blank_listener 1) (blank_listener 1));
    [done | done | done | done | done | reflexivity | reflexivity | lia
    | reflexivity | unfold wf_listener, in_bounds; simpl; lia | simpl; lia
    | reflexivity | unfold wf_listener, in_bounds; simpl; lia | simpl; lia
    | by eexists | by eexists].
Defined.

(** Capacity 2, two slots: the listener at address 1 registered twice. *)
Lemma duplicate_registration_delivers_twice_witness :
  ∃ m0 m1 m2 q,
    initEventQueue 2 (example_memory 2 2) 3 = Some m0 ∧
    addListener 2 m0 3 1 = Some (m1, 0) ∧
    addListener 2 m1 3 1 = Some (m2, 0) ∧
    mem_queues m2 !! 3%N = Some q ∧ numListeners q = 2 ∧
    ∃ m3, sendEvent 2 m2 q {| id := 7 |} = Some (m3, 0) ∧
          mem_listeners m3 !! 1%N
          = Some (listener_push (listener_push (blank_listener 2) {| id := 7 |})
                    {| id := 7 |}).
Proof.
  destruct (duplicate_registration_delivers_twice 2 2 (example_memory 2 2) 3 1
              {| listeners := [7%N; 7%N]; numListeners := 5 |}
              (blank_listener 2) {| id := 7 |})
    as (m0 & m1 & m2 & q & Hinit & Hadd1 & Hadd2 & Hq & Hn & Htwo & _);
    [done | done | reflexivity | reflexivity | lia | reflexivity
    | unfold wf_listener, in_bounds; simpl; lia |].
  exists m0, m1, m2, q.
  split_and!; [exact Hinit | exact Hadd1 | exact Hadd2 | exact Hq | exact Hn |].
  apply Htwo. simpl. lia.
Defined.

(** Two slots filled by two registrations and no removal. *)
Lemma grown_registry_is_visited_witness :
  ∃ q, mem_queues (with_queue [1%N; 2%N] 2 (example_memory 1 2)) !! 3%N = Some q ∧
       packed q ∧ numListeners q = occupied (listeners q) ∧
       ∀ p, p ≠ NULL → p ∈ listeners q → visited q p.
Proof.
  apply (grown_registry_is_visited 2 3
           (with_queue [1%N; 2%N] 2 (example_memory 1 2))).
  apply example_grown_two.
Defined.

(** The full two-slot registry answers calls for the listener at address 1. *)
Lemma reachable_calls_return_witness :
  (∃ m' r, addListener 2 (with_queue [1%N; 2%N] 2 (example_memory 1 2)) 3 1
           = Some (m', r) ∧ (r = 0 ∨ r = -2 ∨ r = -3)) ∧
  (∃ m' r, removeListener 2 (with_queue [1%N; 2%N] 2 (example_memory 1 2)) 3 1
           = Some (m', r) ∧ (r = 0 ∨ r = -2 ∨ r = -3 ∨ r = -4)).
Proof.
  apply (reachable_calls_return 2 3 (with_queue [1%N; 2%N] 2 (example_memory 1 2)));
    [done | apply example_reachable_two; repeat constructor].
Defined.

(** The full two-slot registry: address 1 leaves, address 2 takes its slot. *)
Lemma removeListener_frees_a_slot_witness :
  ∃ j m1 m2,
    [1%N; 2%N] !! j = Some 1%N ∧
    removeListener 2 (with_queue [1%N; 2%N] 2 (example_memory 1 2)) 3 1
    = Some (m1, 0) ∧
    addListener 2 m1 3 2 = Some (m2, 0) ∧
    mem_queues m2 !! 3%N =
      Some {| listeners := <[j := 2%N]> [1%N; 2%N]; numListeners := 2 |} ∧
    addListener 2 m2 3 1 = Some (m2, -2).
Proof.
  apply (removeListener_frees_a_slot 2
           (with_queue [1%N; 2%N] 2 (example_memory 1 2)) 3 1 2
           {| listeners := [1%N; 2%N]; numListeners := 2 |});
    [done | done | done | reflexivity | split; reflexivity | reflexivity
    | simpl; repeat constructor].
Defined.
